(** * OISP application discovery: a shallow embedding of [scripts/discover-apps.py]

    The development follows the Python source function by function.  Python
    [str] values are lists of Unicode code points, the file system is a finite
    map from path strings to nodes, and code that touches the outside world
    runs in a small state-and-exception monad.  Behaviour that comes from the
    Python library or from the operating system (case mapping, [pathlib],
    directory listings, child processes, the clock) is gathered in the class
    [Host]; every function of the script is defined over an arbitrary host. *)

From Stdlib Require Import NArith ZArith Ascii String.
From stdpp Require Import gmap list sorting.

Set Warnings "-register-all".
Local Open Scope N_scope.

(** ** Strings *)

(** A Python string is a sequence of code points. *)
Abbreviation str := (list N).

(** String literals of the source, written as Rocq strings. *)
Fixpoint lit (s : string) : str :=
  match s with
  | EmptyString => []
  | String a s' => N_of_ascii a :: lit s'
  end.
Arguments lit : simpl never.

Definition hyphen : N := 45.
Definition equals_sign : N := 61.
Definition newline : N := 10.

(** Truthiness of a string: [if s] holds for the non-empty ones. *)
Definition nonempty {A} (l : list A) : bool :=
  match l with [] => false | _ :: _ => true end.

(** [s.startswith(p)] *)
Fixpoint startswith (s p : str) : bool :=
  match p, s with
  | [], _ => true
  | _ :: _, [] => false
  | a :: p', b :: s' => (a =? b) && startswith s' p'
  end.

(** [s.endswith(p)] *)
Definition endswith (s p : str) : bool := startswith (reverse s) (reverse p).

(** [k in s] for strings: [k] occurs in [s] as a contiguous substring. *)
Fixpoint contains (s k : str) : bool :=
  startswith s k ||
  match s with
  | [] => false
  | _ :: s' => contains s' k
  end.

Fixpoint drop_while {A} (p : A → bool) (l : list A) : list A :=
  match l with
  | [] => []
  | x :: l' => if p x then drop_while p l' else l
  end.

(** [s.strip(chars)] and [s.strip()]: remove the characters satisfying [p]
    from both ends. *)
Definition strip_chars (p : N → bool) (s : str) : str :=
  reverse (drop_while p (reverse (drop_while p s))).

(** The code points Python treats as whitespace in [str.strip()] and
    [str.split()]. *)
Definition is_space (c : N) : bool :=
  ((9 <=? c) && (c <=? 13)) || ((28 <=? c) && (c <=? 32)) ||
  (c =? 133) || (c =? 160) || (c =? 5760) ||
  ((8192 <=? c) && (c <=? 8202)) || (c =? 8232) || (c =? 8233) ||
  (c =? 8239) || (c =? 8287) || (c =? 12288).

Definition strip : str → str := strip_chars is_space.

(** [s.split(sep)] for a one-character separator: every occurrence splits,
    empty pieces are kept, the result is never empty. *)
Fixpoint split_on (sep : N) (s : str) : list str :=
  match s with
  | [] => [[]]
  | c :: s' =>
      if c =? sep then [] :: split_on sep s'
      else match split_on sep s' with
           | [] => [[c]]
           | piece :: rest => (c :: piece) :: rest
           end
  end.

(** [s.split()]: the maximal runs of non-whitespace characters.  [cur] is the
    run being read, in reverse. *)
Fixpoint split_ws_from (cur : str) (s : str) : list str :=
  match s with
  | [] => if nonempty cur then [reverse cur] else []
  | c :: s' =>
      if is_space c
      then (if nonempty cur then reverse cur :: split_ws_from [] s'
            else split_ws_from [] s')
      else split_ws_from (c :: cur) s'
  end.

Definition split_ws : str → list str := split_ws_from [].

(** Comparison of strings as Python compares them: lexicographic on code
    points, a proper prefix being smaller. *)
Fixpoint str_lt (a b : str) : bool :=
  match a, b with
  | _, [] => false
  | [], _ :: _ => true
  | x :: a', y :: b' => (x <? y) || ((x =? y) && str_lt a' b')
  end.

(** The ASCII part of [str.lower]: [A]..[Z] move to [a]..[z]. *)
Definition ascii_lower_char (c : N) : N :=
  if (65 <=? c) && (c <=? 90) then c + 32 else c.

Definition is_ascii (c : N) : bool := c <? 128.

(** ** The keyword tables *)

Local Open Scope string_scope.

Definition AI_APP_KEYWORDS : list str := map lit
  [ "cursor"; "copilot"; "cody"; "claude"; "chatgpt"; "openai"; "anthropic";
    "gpt"; "gemini"; "bard"; "perplexity"; "phind"; "tabnine"; "kite";
    "windsurf"; "continue"; "aider"; "codeium"; "sourcegraph"; "pieces";
    "notion"; "obsidian"; "grammarly"; "jasper"; "copy.ai"; "writesonic";
    "midjourney"; "dall-e"; "stable-diffusion"; "runway"; "luma";
    "whisper"; "otter"; "descript"; "krisp";
    "raycast"; "alfred";
    "warp";
    "fig";
    "zed" ].

Definition AI_HOST_APPS : list str := map lit
  [ "visual studio code"; "vscode"; "intellij"; "pycharm"; "webstorm";
    "goland"; "rider"; "clion"; "datagrip"; "rubymine"; "phpstorm";
    "android studio"; "xcode"; "sublime text"; "atom"; "vim"; "neovim";
    "emacs"; "nova"; "bbedit"; "textmate" ].

Local Close Scope string_scope.

(** ** The data model *)

(** [AppSignature]: the platform-specific signature of an application. *)
Record AppSignature := {
  bundle_id : option str;
  team_id : option str;
  paths : list str;
  executable_name : option str;
  publisher : option str;
  version : option str;
}.

(** [DiscoveredApp]: one discovered application with all its metadata. *)
Record DiscoveredApp := {
  app_id : str;
  name : str;
  vendor : option str;
  category : str;
  path : str;
  macos : option AppSignature;
  windows : option AppSignature;
  linux : option AppSignature;
  icon_path : option str;
  icon_base64 : option str;
  is_ai_app : bool;
  is_ai_host : bool;
  discovered_at : str;
  machine_id : str;
}.

(** ** Export to a structured document *)

(** The values a [DiscoveredApp] turns into under [dataclasses.asdict]. *)
Inductive value :=
  | VNone
  | VBool (b : bool)
  | VStr (s : str)
  | VList (l : list str)
  | VDict (d : list (str * value)).

(** A Python [dict] keeps its keys in insertion order. *)
Abbreviation dict := (list (str * value)).

(** Truthiness of a value, as in [if v]. *)
Definition truthy (v : value) : bool :=
  match v with
  | VNone => false
  | VBool b => b
  | VStr s => nonempty s
  | VList l => nonempty l
  | VDict d => nonempty d
  end.

(** [d.get(k)]: [None] for a missing key. *)
Fixpoint dict_get (d : dict) (k : str) : value :=
  match d with
  | [] => VNone
  | (k', v) :: d' => if bool_decide (k' = k) then v else dict_get d' k
  end.

(** [d[k] = v]: an existing key keeps its place, a new one goes last. *)
Fixpoint dict_set (d : dict) (k : str) (v : value) : dict :=
  match d with
  | [] => [(k, v)]
  | (k', v') :: d' =>
      if bool_decide (k' = k) then (k', v) :: d' else (k', v') :: dict_set d' k v
  end.

(** [d.pop(k, None)], the popped value being dropped. *)
Definition dict_pop (d : dict) (k : str) : dict :=
  filter (λ kv, kv.1 ≠ k) d.

(** [v.values()] of a nested dictionary. *)
Definition dict_values (v : value) : list value :=
  match v with
  | VDict d => map snd d
  | _ => []
  end.

Definition is_none (v : value) : bool :=
  match v with VNone => true | _ => false end.

Definition opt_str (o : option str) : value :=
  match o with Some s => VStr s | None => VNone end.

Definition asdict_signature (s : AppSignature) : dict :=
  [ (lit "bundle_id", opt_str (bundle_id s));
    (lit "team_id", opt_str (team_id s));
    (lit "paths", VList (paths s));
    (lit "executable_name", opt_str (executable_name s));
    (lit "publisher", opt_str (publisher s));
    (lit "version", opt_str (version s)) ].

Definition opt_signature (o : option AppSignature) : value :=
  match o with Some s => VDict (asdict_signature s) | None => VNone end.

(** [dataclasses.asdict(self)]: the fields in declaration order, nested
    dataclasses converted recursively. *)
Definition asdict (a : DiscoveredApp) : dict :=
  [ (lit "app_id", VStr (app_id a));
    (lit "name", VStr (name a));
    (lit "vendor", opt_str (vendor a));
    (lit "category", VStr (category a));
    (lit "path", VStr (path a));
    (lit "macos", opt_signature (macos a));
    (lit "windows", opt_signature (windows a));
    (lit "linux", opt_signature (linux a));
    (lit "icon_path", opt_str (icon_path a));
    (lit "icon_base64", opt_str (icon_base64 a));
    (lit "is_ai_app", VBool (is_ai_app a));
    (lit "is_ai_host", VBool (is_ai_host a));
    (lit "discovered_at", VStr (discovered_at a));
    (lit "machine_id", VStr (machine_id a)) ].

(** One of the three statements
    [if d.get(k) and not any(v for v in d[k].values() if v): d[k] = None]. *)
Definition clear_empty_signature (k : str) (d : dict) : dict :=
  if truthy (dict_get d k) &&
     negb (existsb truthy (filter (λ v, truthy v = true) (dict_values (dict_get d k))))
  then dict_set d k VNone
  else d.

(** [DiscoveredApp.to_dict(include_icon)] *)
Definition to_dict (a : DiscoveredApp) (include_icon : bool) : dict :=
  let d := asdict a in
  let d := clear_empty_signature (lit "macos") d in
  let d := clear_empty_signature (lit "windows") d in
  let d := clear_empty_signature (lit "linux") d in
  let d := if negb include_icon then dict_pop d (lit "icon_base64") else d in
  filter (λ kv, is_none kv.2 = false) d.

(** ** The outside world *)

(** The exceptions the modelled code can meet. *)
Inductive exn :=
  | TimeoutExpired
  | FileNotFoundError
  | IsADirectoryError
  | NotADirectoryError
  | IndexError.

Inductive result (A : Type) :=
  | Ok (a : A)
  | Raise (e : exn).
Arguments Ok {A} a.
Arguments Raise {A} e.

(** What [subprocess.run] hands back when the child process ran to its end. *)
Record CompletedProcess := {
  returncode : Z;
  stdout : str;
  stderr : str;
}.

(** [subprocess.run] either returns a [CompletedProcess] (whatever the exit
    status: the script never passes [check=True]) or raises: [TimeoutExpired]
    after the timeout, [FileNotFoundError] when the program is not installed. *)
Inductive run_outcome :=
  | Completed (p : CompletedProcess)
  | RunRaises (e : exn).

(** A file-system node: a regular file with its content, or a directory. *)
Inductive node :=
  | File (data : str)
  | Dir.

(** Lines the script prints on standard error. *)
Inductive message :=
  | IconFailed (bundle_name : str) (e : exn)
  | UnsupportedPlatform (system_name : str).

(** The mutable state the script runs against. *)
Record World := {
  fs : gmap str node;
  clock : nat;
  errors : list message;
}.

Definition set_fs (f : gmap str node → gmap str node) (w : World) : World :=
  {| fs := f (fs w); clock := clock w; errors := errors w |}.

(** The library and operating-system behaviour the script relies on.  A path
    is represented by its string form. *)
Class Host := {
  (** [str.lower] *)
  lower : str → str;
  (** [Path(s)], [p / c], [p.name], [p.stem], [p.suffix] and [p.parent] of
      [pathlib] *)
  mk_path : str → str;
  path_join : str → str → str;
  path_name : str → str;
  path_stem : str → str;
  path_suffix : str → str;
  path_parent : str → str;
  (** [platform.system()], [Path.home()] and [os.environ.get] *)
  system : str;
  home : str;
  environ : str → option str;
  (** [p.glob(pattern)], [p.rglob(pattern)] and [p.iterdir()], in the order
      the operating system lists the entries *)
  glob : gmap str node → str → str → list str;
  rglob : gmap str node → str → str → list str;
  iterdir : gmap str node → str → list str;
  (** [plistlib.load] on the content of a file; [None] when it raises.  The
      result is the dictionary of an [Info.plist] with the string entries
      the script reads; a property list whose top level is not a dictionary,
      or whose entries read here are not strings, is not represented. *)
  plist_load : str → option (gmap str str);
  (** decoding of a text file by [read_text]; [None] when it raises *)
  decode_text : str → option str;
  (** group 1 of the copyright pattern searched by [re.search], if it matches *)
  copyright_search : str → option str;
  (** running [codesign -dv path] with a timeout of ten seconds *)
  codesign : World → str → run_outcome;
  (** running [sips ... icon --out tmp] with a timeout of ten seconds: the
      outcome and what the process left on the file system *)
  sips : World → str → str → run_outcome * gmap str node;
  (** the name [tempfile.NamedTemporaryFile(suffix='.png')] picks *)
  mkstemp : gmap str node → str;
  (** [base64.b64encode(data).decode('utf-8')] *)
  b64encode : str → str;
  (** [datetime.now().isoformat()] at a given tick of the clock *)
  isoformat : nat → str;
  (** [hashlib.sha256(platform.node().encode()).hexdigest()[:12]] *)
  node_hash : str;
}.

(** What [str.lower] is known to do: it rewrites the string character by
    character, a character may become several and its image may depend on
    its neighbours, but an ASCII character always becomes its ASCII lower
    case. *)
Definition lower_ok (low : str → str) : Prop :=
  ∀ s, ∃ pieces : list str,
    low s = concat pieces ∧
    Forall2 (λ c piece, is_ascii c = true → piece = [ascii_lower_char c]) s pieces.

(** ** Computations with state and exceptions *)

Definition M (A : Type) : Type := World → result A * World.

Global Instance M_ret : MRet M := λ A a w, (Ok a, w).

Global Instance M_bind : MBind M := λ A B k m w,
  match m w with
  | (Ok a, w') => k a w'
  | (Raise e, w') => (Raise e, w')
  end.

Definition raise {A} (e : exn) : M A := λ w, (Raise e, w).

(** [try: body / except Exception as e: handler(e)] *)
Definition try_except {A} (body : M A) (handler : exn → M A) : M A :=
  λ w, match body w with
       | (Ok a, w') => (Ok a, w')
       | (Raise e, w') => handler e w'
       end.

(** A [for] loop that threads an accumulator and stops at the first
    exception. *)
Fixpoint for_each {A B} (l : list A) (body : A → B → M B) (acc : B) : M B :=
  match l with
  | [] => mret acc
  | x :: l' => acc' ← body x acc; for_each l' body acc'
  end.

Definition get_fs : M (gmap str node) := λ w, (Ok (fs w), w).

(** [Path(p).exists()] and [Path(p).is_dir()].  The file system records, for
    each path, what [os.stat] finds there: a file, a directory or nothing.
    A path on which [os.stat] fails otherwise (a name longer than the file
    system allows, a directory that may not be searched) is not represented:
    on such a path both methods raise [OSError], and no statement below
    speaks of it. *)
Definition path_exists (p : str) : M bool :=
  λ w, (Ok (bool_decide (is_Some (fs w !! p))), w).

Definition is_dir (p : str) : M bool :=
  λ w, (Ok (match fs w !! p with Some Dir => true | _ => false end), w).

(** [Path(p).read_bytes()] *)
Definition read_bytes (p : str) : M str :=
  λ w, match fs w !! p with
       | Some (File data) => (Ok data, w)
       | Some Dir => (Raise IsADirectoryError, w)
       | None => (Raise FileNotFoundError, w)
       end.

(** [Path(p).write_bytes(data)]: the file is opened for writing, created if
    needed, in the directory [p.parent], which is not created. *)
Definition write_bytes {host : Host} (p : str) (data : str) : M unit :=
  λ w, match fs w !! path_parent p with
       | None => (Raise FileNotFoundError, w)
       | Some (File _) => (Raise NotADirectoryError, w)
       | Some Dir =>
           match fs w !! p with
           | Some Dir => (Raise IsADirectoryError, w)
           | _ => (Ok tt, set_fs <[p := File data]> w)
           end
       end.

(** [os.unlink(p)] *)
Definition unlink (p : str) : M unit :=
  λ w, match fs w !! p with
       | Some (File _) => (Ok tt, set_fs (delete p) w)
       | Some Dir => (Raise IsADirectoryError, w)
       | None => (Raise FileNotFoundError, w)
       end.

(** [print(..., file=sys.stderr)] *)
Definition print_stderr (m : message) : M unit :=
  λ w, (Ok tt, {| fs := fs w; clock := clock w; errors := errors w ++ [m] |}).

(** [l[i]], raising [IndexError] out of range. *)
Definition item {A} (l : list A) (i : nat) : M A :=
  match l !! i with
  | Some x => mret x
  | None => raise IndexError
  end.

(** [s.split(sep, 1)]: split at the first separator only. *)
Fixpoint split_once (sep : N) (s : str) : list str :=
  match s with
  | [] => [[]]
  | c :: s' =>
      if c =? sep then [[]; s']
      else match split_once sep s' with
           | piece :: rest => (c :: piece) :: rest
           | [] => [[c]]
           end
  end.

(** [any(kw in s for kw in kws)] *)
Definition any_in (s : str) (kws : list str) : bool :=
  existsb (λ kw, contains s kw) kws.

(** ** Classification and identifiers *)

Section AppIdentity.
Context {host : Host}.

(** [is_ai_related(name, bundle_id)] *)
Definition is_ai_related (name bundle_id : str) : bool * bool :=
  let name_lower := lower name in
  let bundle_lower := if nonempty bundle_id then lower bundle_id else [] in
  if existsb (λ keyword, contains name_lower keyword || contains bundle_lower keyword)
       AI_APP_KEYWORDS
  then (true, false)
  else if existsb (λ host, contains name_lower host) AI_HOST_APPS
  then (false, true)
  else (false, false).

(** The character class [[a-z0-9]] of the pattern in [generate_app_id]. *)
Definition is_slug_char (c : N) : bool :=
  ((97 <=? c) && (c <=? 122)) || ((48 <=? c) && (c <=? 57)).

(** [re.sub(r'[^a-z0-9]+', '-', s)]: every maximal run of characters outside
    the class becomes one hyphen.  [in_run] tells that the hyphen of the
    current run is already written. *)
Fixpoint sub_runs (in_run : bool) (s : str) : str :=
  match s with
  | [] => []
  | c :: s' =>
      if is_slug_char c then c :: sub_runs false s'
      else if in_run then sub_runs true s'
      else hyphen :: sub_runs true s'
  end.

(** [generate_app_id(name)] *)
Definition generate_app_id (name : str) : str :=
  let app_id := lower name in
  let app_id := sub_runs false app_id in
  let app_id := strip_chars (λ c, c =? hyphen) app_id in
  app_id.

(** The two default factories of [DiscoveredApp] read the clock and the host
    name when a record is built. *)
Definition now_isoformat : M str :=
  λ w, (Ok (isoformat (clock w)),
        {| fs := fs w; clock := S (clock w); errors := errors w |}).

(** The constructor call [DiscoveredApp(app_id=..., ...)]; the icon fields
    start out as [None]. *)
Definition new_app (app_id name : str) (vendor : option str) (category path : str)
    (macos windows linux : option AppSignature) (is_ai_app is_ai_host : bool)
    : M DiscoveredApp :=
  stamp ← now_isoformat;
  mret {| app_id := app_id; name := name; vendor := vendor;
          category := category; path := path;
          macos := macos; windows := windows; linux := linux;
          icon_path := None; icon_base64 := None;
          is_ai_app := is_ai_app; is_ai_host := is_ai_host;
          discovered_at := stamp; machine_id := node_hash |}.

End AppIdentity.

(** The constructor arguments shared by the three discoverer classes. *)
Record Discoverer := {
  extract_icons : bool;
  icons_dir : option str;
}.

(** ** The macOS discoverer *)

Module MacOSDiscoverer.
Section Methods.
Context {host : Host}.

(** [self.search_paths] *)
Definition search_paths : list str :=
  [ mk_path (lit "/Applications");
    path_join home (lit "Applications");
    mk_path (lit "/System/Applications") ].

(** [plist.get(key, '')] *)
Definition plist_get (plist : gmap str str) (key : str) : str :=
  default [] (plist !! key).

(** [subprocess.run(['codesign', '-dv', str(app_path)], capture_output=True,
    text=True, timeout=10)] *)
Definition run_codesign (app_path : str) : M CompletedProcess :=
  λ w, match codesign w app_path with
       | Completed p => (Ok p, w)
       | RunRaises e => (Raise e, w)
       end.

(** The [for line in output.split('\n')] loop of [_get_team_id]; leaving the
    loop by [return team_id] is [Some team_id]. *)
Fixpoint scan_team_id (lines : list str) : M (option str) :=
  match lines with
  | [] => mret None
  | line :: rest =>
      if contains line (lit "TeamIdentifier=") then
        field ← item (split_on equals_sign line) 1;
        let team_id := strip field in
        if nonempty team_id && negb (bool_decide (team_id = lit "not set"))
        then mret (Some team_id)
        else scan_team_id rest
      else scan_team_id rest
  end.

(** [MacOSDiscoverer._get_team_id(app_path)] *)
Definition _get_team_id (app_path : str) : M (option str) :=
  result ← run_codesign app_path;
  let output := stderr result in
  if nonempty output then scan_team_id (split_on newline output)
  else mret None.

(** [tempfile.NamedTemporaryFile(suffix='.png', delete=False)], entered and
    left: an empty file stays behind under the name that is returned. *)
Definition named_temporary_file : M str :=
  λ w, let tmp_path := mkstemp (fs w) in
       (Ok tmp_path, set_fs <[tmp_path := File []]> w).

(** [subprocess.run(['sips', ..., str(icon_path), '--out', tmp_path],
    capture_output=True, timeout=10)] *)
Definition run_sips (icon_path tmp_path : str) : M CompletedProcess :=
  λ w, let '(outcome, fs') := sips w icon_path tmp_path in
       let w' := set_fs (λ _, fs') w in
       match outcome with
       | Completed p => (Ok p, w')
       | RunRaises e => (Raise e, w')
       end.

(** The [try] block of [_extract_icon]: [Some data] is [return png_data],
    [None] is falling through to the final [return None]. *)
Definition convert_icon (app_path icon_path : str) : M (option str) :=
  try_except
    (tmp_path ← named_temporary_file;
     result ← run_sips icon_path tmp_path;
     converted ← path_exists tmp_path;
     if (returncode result =? 0)%Z && converted then
       png_data ← read_bytes tmp_path;
       unlink tmp_path;;
       mret (Some png_data)
     else
       left_over ← path_exists tmp_path;
       (if left_over : bool then unlink tmp_path else mret tt);;
       mret None)
    (λ e, print_stderr (IconFailed (path_name app_path) e);; mret None).

(** The search for the icon file in [_extract_icon], from
    [if not icon_path.exists()] on; [None] is the inner [return None]. *)
Definition locate_icon (plist : gmap str str) (resources_path icon_path : str)
    : M (option str) :=
  found ← path_exists icon_path;
  if found : bool then mret (Some icon_path) else
  let icon_file := plist_get plist (lit "CFBundleIconFile") in
  if nonempty icon_file then
    let icon_path := path_join resources_path icon_file in
    found ← path_exists icon_path;
    if found : bool then mret (Some icon_path) else
    files ← get_fs;
    match glob files resources_path (lit "*.icns") with
    | first_icns :: _ => mret (Some first_icns)
    | [] => mret None
    end
  else mret (Some icon_path).

(** [MacOSDiscoverer._extract_icon(app_path, plist)] *)
Definition _extract_icon (app_path : str) (plist : gmap str str) : M (option str) :=
  let icon_file := plist_get plist (lit "CFBundleIconFile") in
  let icon_file :=
    if nonempty icon_file then icon_file
    else plist_get plist (lit "CFBundleIconName") in
  if negb (nonempty icon_file) then mret None else
  let icon_file :=
    if endswith icon_file (lit ".icns") then icon_file
    else icon_file ++ lit ".icns" in
  let resources_path :=
    path_join (path_join app_path (lit "Contents")) (lit "Resources") in
  let icon_path := path_join resources_path icon_file in
  located ← locate_icon plist resources_path icon_path;
  match located with
  | None => mret None
  | Some icon_path =>
      found ← path_exists icon_path;
      if negb found then mret None
      else convert_icon app_path icon_path
  end.

(** The category chosen in [_discover_app]. *)
Definition pick_category (name : str) (is_ai is_host : bool) : str :=
  let category := lit "other" in
  if is_ai then
    if any_in (lower name)
         (map lit ["code"; "ide"; "cursor"; "copilot"; "cody"; "studio"; "zed"]%string)
    then lit "dev_tools"
    else if any_in (lower name)
         (map lit ["chat"; "claude"; "gpt"; "gemini"; "perplexity"]%string)
    then lit "chat"
    else if any_in (lower name) (map lit ["notion"; "obsidian"; "grammarly"]%string)
    then lit "productivity"
    else if any_in (lower name) (map lit ["midjourney"; "dall"; "stable"; "runway"]%string)
    then lit "creative"
    else category
  else if is_host then lit "dev_tools"
  else category.

(** The [if self.extract_icons:] block at the end of [_discover_app]. *)
Definition attach_icon (self : Discoverer) (app_path : str)
    (plist : gmap str str) (app : DiscoveredApp) : M DiscoveredApp :=
  if extract_icons self then
    icon_data ← _extract_icon app_path plist;
    match icon_data with
    | Some ((_ :: _) as data) =>
        match icons_dir self with
        | Some dir =>
            let icon_path := path_join dir (app_id app ++ lit ".png") in
            write_bytes icon_path data;;
            mret {| app_id := app_id app; name := name app; vendor := vendor app;
                    category := category app; path := path app;
                    macos := macos app; windows := windows app; linux := linux app;
                    icon_path := Some icon_path; icon_base64 := icon_base64 app;
                    is_ai_app := is_ai_app app; is_ai_host := is_ai_host app;
                    discovered_at := discovered_at app;
                    machine_id := machine_id app |}
        | None =>
            mret {| app_id := app_id app; name := name app; vendor := vendor app;
                    category := category app; path := path app;
                    macos := macos app; windows := windows app; linux := linux app;
                    icon_path := icon_path app; icon_base64 := Some (b64encode data);
                    is_ai_app := is_ai_app app; is_ai_host := is_ai_host app;
                    discovered_at := discovered_at app;
                    machine_id := machine_id app |}
        end
    | _ => mret app
    end
  else mret app.

(** [MacOSDiscoverer._discover_app(app_path)].  The entries of the property
    list the method reads are strings. *)
Definition _discover_app (self : Discoverer) (app_path : str)
    : M (option DiscoveredApp) :=
  let info_plist :=
    path_join (path_join app_path (lit "Contents")) (lit "Info.plist") in
  present ← path_exists info_plist;
  if negb present then mret None else
  loaded ← try_except (data ← read_bytes info_plist; mret (plist_load data))
                      (λ _, mret None);
  match loaded with
  | None => mret None
  | Some plist =>
      let bundle_id := plist_get plist (lit "CFBundleIdentifier") in
      if negb (nonempty bundle_id) then mret None else
      let name :=
        if nonempty (plist_get plist (lit "CFBundleName"))
        then plist_get plist (lit "CFBundleName")
        else if nonempty (plist_get plist (lit "CFBundleDisplayName"))
        then plist_get plist (lit "CFBundleDisplayName")
        else path_stem app_path in
      let version := plist_get plist (lit "CFBundleShortVersionString") in
      let executable := plist_get plist (lit "CFBundleExecutable") in
      let copyright_str := plist_get plist (lit "NSHumanReadableCopyright") in
      let vendor :=
        if nonempty copyright_str
        then strip <$> copyright_search copyright_str
        else None in
      team_id ← _get_team_id app_path;
      let '(is_ai, is_host) := is_ai_related name bundle_id in
      let category := pick_category name is_ai is_host in
      let signature :=
        {| bundle_id := Some bundle_id; team_id := team_id;
           paths := [app_path]; executable_name := Some executable;
           publisher := None; version := Some version |} in
      app ← new_app (generate_app_id name) name vendor category app_path
                    (Some signature) None None is_ai is_host;
      app ← attach_icon self app_path plist app;
      mret (Some app)
  end.

(** The block that follows each call of [_discover_app] in [discover_all]:
    keep the record when its bundle identifier has not been seen yet. *)
Definition keep_new (app : option DiscoveredApp)
    (acc : list DiscoveredApp * gset str) : list DiscoveredApp * gset str :=
  let '(apps, seen_bundle_ids) := acc in
  match app with
  | Some a =>
      match macos a with
      | Some signature =>
          match bundle_id signature with
          | Some b =>
              if nonempty b && negb (bool_decide (b ∈ seen_bundle_ids))
              then (apps ++ [a], seen_bundle_ids ∪ {[ b ]})
              else acc
          | None => acc
          end
      | None => acc
      end
  | None => acc
  end.

(** The traversal of [discover_all]: every search path that exists, its
    [*.app] entries first, then those of its sub-directories that are not
    bundles themselves.  [visit] is the body run on each bundle path.  Each
    listing is read off the file system as it is when its loop starts. *)
Definition walk_bundles {A} (visit : str → A → M A) (acc : A) : M A :=
  for_each search_paths (λ search_path acc,
    present ← path_exists search_path;
    if negb present then mret acc else
    files ← get_fs;
    acc ← for_each (glob files search_path (lit "*.app")) visit acc;
    files ← get_fs;
    for_each (iterdir files search_path) (λ subdir acc,
      directory ← is_dir subdir;
      if directory && negb (bool_decide (path_suffix subdir = lit ".app")) then
        files ← get_fs;
        for_each (glob files subdir (lit "*.app")) visit acc
      else mret acc) acc) acc.

(** [MacOSDiscoverer.discover_all()] *)
Definition discover_all (self : Discoverer) : M (list DiscoveredApp) :=
  found ← walk_bundles
    (λ app_path acc, app ← _discover_app self app_path; mret (keep_new app acc))
    ([], ∅);
  mret found.1.

End Methods.
End MacOSDiscoverer.

(** ** The Windows discoverer *)

Module WindowsDiscoverer.
Section Methods.
Context {host : Host}.

(** [os.environ.get(key, fallback)] *)
Definition environ_get (key fallback : str) : str :=
  default fallback (environ key).

Definition search_paths : list str :=
  [ mk_path (environ_get (lit "PROGRAMFILES") (lit "C:\Program Files"));
    mk_path (environ_get (lit "PROGRAMFILES(X86)") (lit "C:\Program Files (x86)"));
    path_join (mk_path (environ_get (lit "LOCALAPPDATA") [])) (lit "Programs") ].

(** [WindowsDiscoverer._discover_app(exe_path)] *)
Definition _discover_app (exe_path : str) : M (option DiscoveredApp) :=
  let name := path_stem exe_path in
  let '(is_ai, is_host) := is_ai_related name [] in
  if negb is_ai && negb is_host then mret None else
  let signature :=
    {| bundle_id := None; team_id := None; paths := [exe_path];
       executable_name := Some (path_name exe_path);
       publisher := None; version := None |} in
  app ← new_app (generate_app_id name) name None (lit "other") exe_path
                None (Some signature) None is_ai is_host;
  mret (Some app).

(** [WindowsDiscoverer.discover_all()] *)
Definition discover_all : M (list DiscoveredApp) :=
  for_each search_paths (λ search_path apps,
    present ← path_exists search_path;
    if negb present then mret apps else
    files ← get_fs;
    for_each (rglob files search_path (lit "*.exe")) (λ exe_path apps,
      if any_in (lower (path_name exe_path))
           (map lit ["uninstall"; "update"; "setup"; "installer"]%string)
      then mret apps
      else
        app ← _discover_app exe_path;
        match app with
        | Some a => mret (apps ++ [a])
        | None => mret apps
        end) apps) [].

End Methods.
End WindowsDiscoverer.

(** ** The Linux discoverer *)

Module LinuxDiscoverer.
Section Methods.
Context {host : Host}.

Definition desktop_dirs : list str :=
  [ mk_path (lit "/usr/share/applications");
    mk_path (lit "/usr/local/share/applications");
    path_join home (lit ".local/share/applications") ].

(** [desktop_file.read_text()] under [try: ... except Exception: return None];
    [None] is that early return. *)
Definition read_text (desktop_file : str) : M (option str) :=
  try_except (data ← read_bytes desktop_file; mret (decode_text data))
             (λ _, mret None).

(** The body of the [for line in content.split('\n')] loop of
    [_parse_desktop_file]; the accumulator holds [name] and [exec_path]. *)
Definition parse_line (line : str) (acc : option str * option str)
    : M (option str * option str) :=
  let '(name, exec_path) := acc in
  if startswith line (lit "Name=") then
    value ← item (split_once equals_sign line) 1;
    mret (Some (strip value), exec_path)
  else if startswith line (lit "Exec=") then
    value ← item (split_once equals_sign line) 1;
    word ← item (split_ws value) 0;
    mret (name, Some (strip word))
  else mret acc.

(** [LinuxDiscoverer._parse_desktop_file(desktop_file)] *)
Definition _parse_desktop_file (desktop_file : str) : M (option DiscoveredApp) :=
  content ← read_text desktop_file;
  match content with
  | None => mret None
  | Some content =>
      parsed ← for_each (split_on newline content) parse_line (None, None);
      let '(name, exec_path) := parsed in
      match name with
      | Some ((_ :: _) as name) =>
          let '(is_ai, is_host) := is_ai_related name [] in
          let signature :=
            match exec_path with
            | Some ((_ :: _) as exec_path) =>
                {| bundle_id := None; team_id := None; paths := [exec_path];
                   executable_name := Some (path_name (mk_path exec_path));
                   publisher := None; version := None |}
            | _ =>
                {| bundle_id := None; team_id := None; paths := [];
                   executable_name := None;
                   publisher := None; version := None |}
            end in
          let path := match exec_path with
                      | Some ((_ :: _) as exec_path) => exec_path
                      | _ => []
                      end in
          app ← new_app (generate_app_id name) name None (lit "other") path
                        None None (Some signature) is_ai is_host;
          mret (Some app)
      | _ => mret None
      end
  end.

(** [LinuxDiscoverer.discover_all()] *)
Definition discover_all : M (list DiscoveredApp) :=
  for_each desktop_dirs (λ desktop_dir apps,
    present ← path_exists desktop_dir;
    if negb present then mret apps else
    files ← get_fs;
    for_each (glob files desktop_dir (lit "*.desktop")) (λ desktop_file apps,
      app ← _parse_desktop_file desktop_file;
      match app with
      | Some a => mret (apps ++ [a])
      | None => mret apps
      end) apps) [].

End Methods.
End LinuxDiscoverer.

(** ** The entry point *)

Section Registry.
Context {host : Host}.

(** The sort key [(not a.is_ai_app, not a.is_ai_host, a.name.lower())]. *)
Definition sort_key (a : DiscoveredApp) : bool * bool * str :=
  (negb (is_ai_app a), negb (is_ai_host a), lower (name a)).

(** [False < True] *)
Definition bool_lt (a b : bool) : bool := negb a && b.

(** [k1 < k2] on key tuples: the first component that differs decides. *)
Definition key_lt (k1 k2 : bool * bool * str) : bool :=
  let '(a1, b1, s1) := k1 in
  let '(a2, b2, s2) := k2 in
  if negb (eqb a1 a2) then bool_lt a1 a2
  else if negb (eqb b1 b2) then bool_lt b1 b2
  else str_lt s1 s2.

(** [list.sort(key=...)] is a stable sort, and the result of a stable sort is
    fixed by the input and the order.  It is computed here by insertion from
    the right: an element goes in front of the first one that is not smaller
    than it, hence in front of the later elements with an equal key. *)
Fixpoint insert_by {A K} (key : A → K) (lt : K → K → bool) (x : A) (l : list A)
    : list A :=
  match l with
  | [] => [x]
  | y :: l' => if lt (key y) (key x) then y :: insert_by key lt x l' else x :: l
  end.

Definition sort_by {A K} (key : A → K) (lt : K → K → bool) (l : list A) : list A :=
  foldr (insert_by key lt) [] l.

(** [discover_apps(ai_only, extract_icons, icons_dir)].  [discoverer] is the
    [discover_all] method of the class picked for the platform, or [None] on
    an unsupported one. *)
Definition discover_apps (ai_only extract_icons : bool) (icons_dir : option str)
    : M (list DiscoveredApp) :=
  let self := {| extract_icons := extract_icons; icons_dir := icons_dir |} in
  let discoverer :=
    if bool_decide (system = lit "Darwin")
    then Some (MacOSDiscoverer.discover_all self)
    else if bool_decide (system = lit "Windows")
    then Some WindowsDiscoverer.discover_all
    else if bool_decide (system = lit "Linux")
    then Some LinuxDiscoverer.discover_all
    else None in
  match discoverer with
  | None =>
      print_stderr (UnsupportedPlatform system);;
      mret []
  | Some discover_all =>
      apps ← discover_all;
      let apps := if ai_only
                  then filter (λ a, is_ai_app a || is_ai_host a = true) apps
                  else apps in
      mret (sort_by sort_key key_lt apps)
  end.

End Registry.

(** ** Running commands *)

(** [run_command(cmd, timeout)]; [run] is the call of [subprocess.run]
    with [capture_output=True, text=True]. *)
Definition run_command (run : M CompletedProcess) : M (option str) :=
  λ w, match run w with
       | (Ok result, w') =>
           (Ok (if (returncode result =? 0)%Z then Some (strip (stdout result))
                else None), w')
       | (Raise TimeoutExpired, w') => (Ok None, w')
       | (Raise FileNotFoundError, w') => (Ok None, w')
       | (Raise e, w') => (Raise e, w')
       end.

(** [run_command_binary(cmd, timeout)]: the output is handed back as it is. *)
Definition run_command_binary (run : M CompletedProcess) : M (option str) :=
  λ w, match run w with
       | (Ok result, w') =>
           (Ok (if (returncode result =? 0)%Z then Some (stdout result)
                else None), w')
       | (Raise TimeoutExpired, w') => (Ok None, w')
       | (Raise FileNotFoundError, w') => (Ok None, w')
       | (Raise e, w') => (Raise e, w')
       end.

(** ** Export to a profile document *)

Definition dquote : N := 34.

(** A value written between double quotes by an f-string of [to_yaml];
    nothing in it is escaped. *)
Definition quoted (s : str) : str := [dquote] ++ s ++ [dquote].

(** [sep.join(lines)] *)
Fixpoint join (sep : str) (lines : list str) : str :=
  match lines with
  | [] => []
  | [line] => line
  | line :: rest => line ++ sep ++ join sep rest
  end.

(** Truthiness of an optional string: set and non-empty. *)
Definition filled (o : option str) : bool :=
  match o with
  | Some s => nonempty s
  | None => false
  end.

(** The [paths] and [executable_name] lines every signature block of
    [to_yaml] ends with. *)
Definition yaml_paths_and_executable (signature : AppSignature) : list str :=
  (if nonempty (paths signature)
   then lit "    paths:" ::
        map (λ path, lit "      - " ++ quoted path) (paths signature)
   else []) ++
  (if filled (executable_name signature)
   then [lit "    executable_name: " ++
         quoted (default [] (executable_name signature))]
   else []).

Section Profile.
Context {host : Host}.

(** The list [lines] that [to_yaml] builds. *)
Definition yaml_lines (app : DiscoveredApp) : list str :=
  [ lit "# " ++ name app;
    lit "# Discovered from: " ++ path app;
    [];
    lit "app_id: " ++ app_id app;
    lit "name: " ++ quoted (name app) ] ++
  (if filled (vendor app)
   then [lit "vendor: " ++ quoted (default [] (vendor app))] else []) ++
  [ lit "category: " ++ category app;
    [];
    lit "signatures:" ] ++
  match macos app with
  | Some signature =>
      [lit "  macos:"] ++
      (if filled (bundle_id signature)
       then [lit "    bundle_id: " ++ quoted (default [] (bundle_id signature))]
       else []) ++
      (if filled (team_id signature)
       then [lit "    team_id: " ++ quoted (default [] (team_id signature))]
       else []) ++
      yaml_paths_and_executable signature
  | None => []
  end ++
  match windows app with
  | Some signature => [lit "  windows:"] ++ yaml_paths_and_executable signature
  | None => []
  end ++
  match linux app with
  | Some signature => [lit "  linux:"] ++ yaml_paths_and_executable signature
  | None => []
  end ++
  [ [];
    lit "metadata:";
    lit "  discovered_at: " ++ quoted (discovered_at app) ] ++
  match macos app with
  | Some signature =>
      if filled (version signature)
      then [lit "  version_discovered: " ++ quoted (default [] (version signature))]
      else []
  | None => []
  end ++
  (if is_ai_app app then [lit "  is_ai_app: true"] else []) ++
  (if is_ai_host app then [lit "  is_ai_host: true"] else []) ++
  (if filled (icon_path app)
   then [lit "  icon: " ++
         quoted (path_name (mk_path (default [] (icon_path app))))]
   else []) ++
  [ [] ].

(** [to_yaml(app)] *)
Definition to_yaml (app : DiscoveredApp) : str :=
  join [newline] (yaml_lines app).

End Profile.

(** ** A concrete host

    A small host on which the script can be run inside Rocq: ASCII case
    mapping, POSIX-style paths, directory listings given as a table, and
    property lists written as [key=value] lines.  On ASCII strings its
    [lower] is exactly [str.lower]. *)

Definition ascii_lower (s : str) : str := map ascii_lower_char s.

Definition slash : N := 47.
Definition dot : N := 46.

Definition posix_join (p c : str) : str := p ++ [slash] ++ c.

Definition posix_name (p : str) : str := default [] (last (split_on slash p)).

(** [p.suffix]: from the last dot of the name on, unless that dot is the
    first or the last character of the name. *)
Definition posix_suffix (p : str) : str :=
  let pieces := split_on dot (posix_name p) in
  match last pieces with
  | Some ((_ :: _) as ext) =>
      if (2 <=? length pieces)%nat &&
         (length ext + 1 <? length (posix_name p))%nat
      then dot :: ext else []
  | _ => []
  end.

Definition posix_stem (p : str) : str :=
  take (length (posix_name p) - length (posix_suffix p)) (posix_name p).

(** [p.parent]: what stands before the last slash; the root for an entry of
    the root, the current directory for a bare name. *)
Definition posix_parent (p : str) : str :=
  match take (length p - length (posix_name p) - 1) p with
  | [] => if startswith p [slash] then [slash] else [dot]
  | dir => dir
  end.

(** The entries of a directory in a listing table. *)
Fixpoint entries (listing : list (str * list str)) (dir : str) : list str :=
  match listing with
  | [] => []
  | (d, es) :: rest => if bool_decide (d = dir) then es else entries rest dir
  end.

(** [dir.glob("*.ext")] over a listing table. *)
Definition glob_listing (listing : list (str * list str)) (dir pattern : str)
    : list str :=
  filter (λ p, endswith p (drop 1 pattern) = true) (entries listing dir).

(** A property list written as [key=value] lines. *)
Definition parse_key_values (data : str) : option (gmap str str) :=
  Some (list_to_map
          (omap (λ line, match split_once equals_sign line with
                         | [k; v] => Some (k, v)
                         | _ => None
                         end)
                (split_on newline data))).

Definition fixture (system_name : str) (listing : list (str * list str))
    (run_codesign : str → run_outcome)
    (run_sips : World → str → str → run_outcome * gmap str node) : Host :=
  {| lower := ascii_lower;
     mk_path := id;
     path_join := posix_join;
     path_name := posix_name;
     path_stem := posix_stem;
     path_suffix := posix_suffix;
     path_parent := posix_parent;
     system := system_name;
     home := lit "/home/user";
     environ := λ _, None;
     glob := λ _, glob_listing listing;
     rglob := λ _, glob_listing listing;
     iterdir := λ _, entries listing;
     plist_load := parse_key_values;
     decode_text := Some;
     copyright_search := λ _, None;
     codesign := λ _, run_codesign;
     sips := run_sips;
     mkstemp := λ _, lit "/tmp/tmpicon.png";
     b64encode := id;
     isoformat := λ _, lit "2024-01-01T00:00:00";
     node_hash := lit "0123456789ab" |}.

(** [codesign] reporting a signed bundle. *)
Definition signed_by (team : str) (app_path : str) : run_outcome :=
  Completed {| returncode := 0; stdout := [];
               stderr := lit "Identifier=app" ++ [newline] ++
                         lit "TeamIdentifier=" ++ team |}.

(** A tool that is not installed: [subprocess.run] raises. *)
Definition codesign_missing (app_path : str) : run_outcome :=
  RunRaises FileNotFoundError.

Definition sips_missing (w : World) (icon_path tmp_path : str)
    : run_outcome * gmap str node :=
  (RunRaises FileNotFoundError, fs w).

(** [sips] converting the icon: the output file holds the converted data. *)
Definition sips_converts (w : World) (icon_path tmp_path : str)
    : run_outcome * gmap str node :=
  (Completed {| returncode := 0; stdout := []; stderr := [] |},
   <[tmp_path := File (lit "PNG")]> (fs w)).

(** A macOS machine with the ChatGPT bundle installed twice: in
    [/Applications] and, as a left-over copy, in [/Applications/Utilities]. *)
Definition chatgpt_plist : str :=
  lit "CFBundleIdentifier=com.openai.chat" ++ [newline] ++
  lit "CFBundleName=ChatGPT" ++ [newline] ++
  lit "CFBundleShortVersionString=1.0" ++ [newline] ++
  lit "CFBundleExecutable=ChatGPT" ++ [newline] ++
  lit "CFBundleIconFile=AppIcon".

Definition mac_listing : list (str * list str) :=
  [ (lit "/Applications",
     [lit "/Applications/ChatGPT.app"; lit "/Applications/Utilities"]);
    (lit "/Applications/Utilities",
     [lit "/Applications/Utilities/ChatGPT copy.app"]) ].

Definition mac_world : World :=
  {| fs := list_to_map
       [ (lit "/Applications", Dir);
         (lit "/Applications/ChatGPT.app", Dir);
         (lit "/Applications/ChatGPT.app/Contents/Info.plist", File chatgpt_plist);
         (lit "/Applications/ChatGPT.app/Contents/Resources/AppIcon.icns",
          File (lit "icns"));
         (lit "/Applications/Utilities", Dir);
         (lit "/Applications/Utilities/ChatGPT copy.app", Dir);
         (lit "/Applications/Utilities/ChatGPT copy.app/Contents/Info.plist",
          File chatgpt_plist) ];
     clock := 0;
     errors := [] |}.

(** The machine in working order, without [codesign], and without [sips]. *)
Definition mac_host : Host :=
  fixture (lit "Darwin") mac_listing (signed_by (lit "2DC432GLL2")) sips_converts.

Definition mac_without_codesign : Host :=
  fixture (lit "Darwin") mac_listing codesign_missing sips_converts.

Definition mac_without_sips : Host :=
  fixture (lit "Darwin") mac_listing (signed_by (lit "2DC432GLL2")) sips_missing.

(** A Linux machine, for the desktop-entry examples. *)
Definition linux_host : Host :=
  fixture (lit "Linux") [] codesign_missing sips_missing.

(** A world holding one desktop entry with the given content. *)
Definition desktop_world (content : str) : World :=
  {| fs := {[ lit "/usr/share/applications/app.desktop" := File content ]};
     clock := 0;
     errors := [] |}.

(** ** Vocabulary of the statements *)

(** ASCII letters and digits. *)
Definition is_ascii_alnum (c : N) : bool :=
  ((65 <=? c) && (c <=? 90)) || ((97 <=? c) && (c <=? 122)) ||
  ((48 <=? c) && (c <=? 57)).

(** Letters that are not ASCII: the CJK unified ideographs U+4E00..U+9FFF.
    They are letters for Unicode and for [str.isalnum], and have no case:
    [str.lower] leaves them as they are. *)
Definition is_cjk_ideograph (c : N) : bool := (19968 <=? c) && (c <=? 40959).

(** Letters and digits, as far as the statements need them: the ASCII ones
    and the ideographs. *)
Definition is_letter_or_digit (c : N) : bool :=
  is_ascii_alnum c || is_cjk_ideograph c.

(** The application name U+5FAE U+4FE1 (WeChat, as displayed in Chinese). *)
Definition wechat : str := [24494; 20449].

(** No two hyphens in a row. *)
Fixpoint no_double_hyphen (s : str) : bool :=
  match s with
  | a :: (b :: _) as rest =>
      negb ((a =? hyphen) && (b =? hyphen)) && no_double_hyphen rest
  | _ => true
  end.

Definition is_slug_or_hyphen (c : N) : bool := is_slug_char c || (c =? hyphen).

(** A value that is null or empty. *)
Definition is_blank (v : value) : bool :=
  match v with
  | VNone | VStr [] | VList [] | VDict [] => true
  | _ => false
  end.

(** The entries of a nested object. *)
Definition sub_entries (v : value) : dict :=
  match v with VDict d => d | _ => [] end.

(** No key of the object, nor of an object nested in it, has a null or empty
    value. *)
Definition no_blank_values (d : dict) : bool :=
  forallb (λ kv, negb (is_blank kv.2) &&
                 forallb (λ kv', negb (is_blank kv'.2)) (sub_entries kv.2)) d.

(** Some field of the signature is set and non-empty. *)
Definition signature_has_data (s : AppSignature) : bool :=
  existsb truthy (map snd (asdict_signature s)).

(** What [to_dict] emits for a platform signature: the whole signature when
    some field of it has data, nothing otherwise. *)
Definition emitted_signature (o : option AppSignature) : value :=
  match o with
  | Some s => if signature_has_data s then VDict (asdict_signature s) else VNone
  | None => VNone
  end.

(** A platform signature is emitted when it is there and has data. *)
Definition signature_emitted (o : option AppSignature) : bool :=
  match o with
  | Some s => signature_has_data s
  | None => false
  end.

(** A desktop entry without an [Exec=] line, and the record the Linux
    discoverer builds for it: its path is the empty string. *)
Definition files_entry : str :=
  lit "[Desktop Entry]" ++ [newline] ++
  lit "Name=Files" ++ [newline] ++
  lit "Type=Directory".

Definition files_app : DiscoveredApp :=
  {| app_id := lit "files"; name := lit "Files"; vendor := None;
     category := lit "other"; path := [];
     macos := None; windows := None;
     linux := Some {| bundle_id := None; team_id := None; paths := [];
                      executable_name := None; publisher := None;
                      version := None |};
     icon_path := None; icon_base64 := None;
     is_ai_app := false; is_ai_host := false;
     discovered_at := lit "2024-01-01T00:00:00";
     machine_id := lit "0123456789ab" |}.

(** The record the macOS discoverer builds for the ChatGPT bundle of the
    concrete machine. *)
Definition chatgpt_app : DiscoveredApp :=
  {| app_id := lit "chatgpt"; name := lit "ChatGPT"; vendor := None;
     category := lit "chat"; path := lit "/Applications/ChatGPT.app";
     macos := Some {| bundle_id := Some (lit "com.openai.chat");
                      team_id := Some (lit "2DC432GLL2");
                      paths := [lit "/Applications/ChatGPT.app"];
                      executable_name := Some (lit "ChatGPT");
                      publisher := None; version := Some (lit "1.0") |};
     windows := None; linux := None;
     icon_path := None; icon_base64 := None;
     is_ai_app := true; is_ai_host := false;
     discovered_at := lit "2024-01-01T00:00:00";
     machine_id := lit "0123456789ab" |}.

(** The key does not occur in the object. *)
Definition key_absent (k : str) (d : dict) : bool :=
  forallb (λ kv, negb (bool_decide (kv.1 = k))) d.

Fixpoint distinct_keys (d : dict) : bool :=
  match d with
  | [] => true
  | (k, _) :: d' => key_absent k d' && distinct_keys d'
  end.

(** The world right after [_extract_icon] has created its temporary file. *)
Definition with_temp_file {host : Host} (w : World) : World :=
  set_fs <[mkstemp (fs w) := File []]> w.

(** The lines of a desktop entry that start with a given key, in file
    order, and the value a line carries after its first [=]. *)
Definition key_lines (key content : str) : list str :=
  filter (λ line, startswith line key = true) (split_on newline content).

Definition line_value (line : str) : str :=
  default [] (split_once equals_sign line !! 1%nat).

Definition first_word (s : str) : str := default [] (head (split_ws s)).

(** What the parser of desktop entries ends up with for [Name] and [Exec]:
    the values of the last line of each key. *)
Definition parsed_name (content : str) : option str :=
  (λ line, strip (line_value line)) <$> last (key_lines (lit "Name=") content).

Definition parsed_exec (content : str) : option str :=
  (λ line, strip (first_word (line_value line))) <$>
  last (key_lines (lit "Exec=") content).

(** The reading of the specification: the values of the first line of each
    key. *)
Definition first_name (content : str) : option str :=
  (λ line, strip (line_value line)) <$> head (key_lines (lit "Name=") content).

Definition first_exec (content : str) : option str :=
  (λ line, strip (first_word (line_value line))) <$>
  head (key_lines (lit "Exec=") content).

(** No [Exec=] line with nothing but blanks after the [=]. *)
Definition exec_lines_filled (content : str) : Prop :=
  Forall (λ line, split_ws (line_value line) ≠ []) (key_lines (lit "Exec=") content).

(** A desktop entry that repeats both keys. *)
Definition repeated_entry : str :=
  lit "[Desktop Entry]" ++ [newline] ++
  lit "Name=First" ++ [newline] ++
  lit "Exec=/usr/bin/first --open" ++ [newline] ++
  lit "Name=Second" ++ [newline] ++
  lit "Exec=/usr/bin/second %U".

Definition vscode_entry : str :=
  lit "[Desktop Entry]" ++ [newline] ++
  lit "Name=Visual Studio Code" ++ [newline] ++
  lit "Exec=/usr/share/code/code %F".

Definition desktop_file : str := lit "/usr/share/applications/app.desktop".

(** The value a loop variable holds after the loop: that of the last line
    which set it, or the initial one. *)
Definition last_or {A B} (f : A → B) (l : list A) (init : option B) : option B :=
  match last l with
  | Some x => Some (f x)
  | None => init
  end.

(** The tier of a record in the registry: AI applications, then AI hosts,
    then the rest. *)
Definition tier (a : DiscoveredApp) : nat :=
  if is_ai_app a then 0%nat else if is_ai_host a then 1%nat else 2%nat.

(** [a <= b] on strings. *)
Definition str_le (a b : str) : Prop := str_lt b a = false.

(** The order of the registry: by tier, and within a tier by lower-cased
    name. *)
Definition registry_le {host : Host} (a b : DiscoveredApp) : Prop :=
  (tier a < tier b)%nat ∨
  (tier a = tier b ∧ str_le (lower (name a)) (lower (name b))).

(** At most one of the two flags is set. *)
Definition exclusive (a : DiscoveredApp) : Prop :=
  is_ai_app a && is_ai_host a = false.

(** A record with a given name and flags, for the ordering example. *)
Definition sample_app (n : str) (ai host_flag : bool) : DiscoveredApp :=
  {| app_id := n; name := n; vendor := None; category := lit "other"; path := [];
     macos := None; windows := None; linux := None;
     icon_path := None; icon_base64 := None;
     is_ai_app := ai; is_ai_host := host_flag;
     discovered_at := lit "2024-01-01T00:00:00";
     machine_id := lit "0123456789ab" |}.

(** The [discover_all] method [discover_apps] calls: that of the class picked
    for the platform, none on a platform the script does not know. *)
Definition platform_discoverer {host : Host} (self : Discoverer)
    : option (M (list DiscoveredApp)) :=
  if bool_decide (system = lit "Darwin")
  then Some (MacOSDiscoverer.discover_all self)
  else if bool_decide (system = lit "Windows")
  then Some WindowsDiscoverer.discover_all
  else if bool_decide (system = lit "Linux")
  then Some LinuxDiscoverer.discover_all
  else None.

(** The records [discover_apps] goes on with: all that were found, or only
    the AI applications and AI hosts when [ai_only] is set. *)
Definition selected (ai_only : bool) (apps : list DiscoveredApp)
    : list DiscoveredApp :=
  if ai_only then filter (λ a, is_ai_app a || is_ai_host a = true) apps else apps.

(** A Linux machine whose applications directory lists three desktop
    entries in the order Zoom (neither an AI application nor a host), Aider
    (an AI application) and MacVim (an AI host). *)
Definition desktop_entry (n command : str) : str :=
  lit "[Desktop Entry]" ++ [newline] ++
  lit "Name=" ++ n ++ [newline] ++
  lit "Exec=" ++ command.

Definition office_listing : list (str * list str) :=
  [ (lit "/usr/share/applications",
     [ lit "/usr/share/applications/zoom.desktop";
       lit "/usr/share/applications/aider.desktop";
       lit "/usr/share/applications/macvim.desktop" ]) ].

Definition office_host : Host :=
  fixture (lit "Linux") office_listing codesign_missing sips_missing.

Definition office_world : World :=
  {| fs := list_to_map
       [ (lit "/usr/share/applications", Dir);
         (lit "/usr/share/applications/zoom.desktop",
          File (desktop_entry (lit "Zoom") (lit "/usr/bin/zoom %U")));
         (lit "/usr/share/applications/aider.desktop",
          File (desktop_entry (lit "Aider") (lit "/usr/bin/aider")));
         (lit "/usr/share/applications/macvim.desktop",
          File (desktop_entry (lit "MacVim") (lit "/usr/bin/mvim -g"))) ];
     clock := 0;
     errors := [] |}.

(** The bundle identifier under which the macOS discoverer files a record:
    set and non-empty, or the record is not kept. *)
Definition bundle_key (a : DiscoveredApp) : option str :=
  match macos a with
  | Some signature =>
      match bundle_id signature with
      | Some b => if nonempty b then Some b else None
      | None => None
      end
  | None => None
  end.

(** What [_discover_app] returned for each bundle met by [discover_all], in
    scan order: the same traversal, recording every result. *)
Definition scan_order {host : Host} (self : Discoverer)
    : M (list (option DiscoveredApp)) :=
  MacOSDiscoverer.walk_bundles
    (λ app_path found,
       app ← MacOSDiscoverer._discover_app self app_path; mret (found ++ [app]))
    [].

(** The records kept out of a list of results. *)
Definition kept (found : list (option DiscoveredApp))
    : list DiscoveredApp * gset str :=
  fold_left (λ acc app, MacOSDiscoverer.keep_new app acc) found ([], ∅).

(** Two runs end alike: both normally, in the same world and with related
    results, or both with the same exception in the same world. *)
Definition alike {A A'} (R : A → A' → Prop)
    (r : result A * World) (r' : result A' * World) : Prop :=
  match r, r' with
  | (Ok a, w), (Ok a', w') => R a a' ∧ w = w'
  | (Raise e, w), (Raise e', w') => e = e' ∧ w = w'
  | _, _ => False
  end.

(** What holds of the records kept after a list of results has been gone
    through. *)
Record kept_ok (found : list (option DiscoveredApp))
    (apps : list DiscoveredApp) (seen : gset str) : Prop := {
  seen_keys : ∀ b, b ∈ seen ↔ ∃ a, a ∈ apps ∧ bundle_key a = Some b;
  keys_set : Forall (λ a, is_Some (bundle_key a)) apps;
  keys_distinct : NoDup (bundle_key <$> apps);
  kept_first : ∀ a, a ∈ apps →
    ∃ l1 l2, found = l1 ++ Some a :: l2 ∧
             ∀ a', Some a' ∈ l1 → bundle_key a' ≠ bundle_key a;
  kept_all : ∀ a', Some a' ∈ found → is_Some (bundle_key a') →
    ∃ a, a ∈ apps ∧ bundle_key a = bundle_key a';
}.

(** A computation that ends normally in every world. *)
Definition returns {A} (m : M A) : Prop :=
  ∀ w, ∃ a w', m w = (Ok a, w').

(** ** Vocabulary and machines of the further properties *)

(** [codesign] on a bundle that is not signed: a non-zero exit and one line
    of diagnostics. *)
Definition not_signed (app_path : str) : run_outcome :=
  Completed {| returncode := 1; stdout := [];
               stderr := app_path ++ lit ": code object is not signed at all" |}.

Definition mac_unsigned : Host :=
  fixture (lit "Darwin") mac_listing not_signed sips_converts.

(** [sips] failing: a non-zero exit, the output file left empty. *)
Definition sips_fails (w : World) (icon_path tmp_path : str)
    : run_outcome * gmap str node :=
  (Completed {| returncode := 13; stdout := []; stderr := lit "Error 13" |}, fs w).

Definition mac_failing_sips : Host :=
  fixture (lit "Darwin") mac_listing (signed_by (lit "2DC432GLL2")) sips_fails.

(** The two records agree on every field but the two icon fields. *)
Definition same_but_icons (a b : DiscoveredApp) : Prop :=
  app_id a = app_id b ∧ name a = name b ∧ vendor a = vendor b ∧
  category a = category b ∧ path a = path b ∧
  macos a = macos b ∧ windows a = windows b ∧ linux a = linux b ∧
  is_ai_app a = is_ai_app b ∧ is_ai_host a = is_ai_host b ∧
  discovered_at a = discovered_at b ∧ machine_id a = machine_id b.

(** The [Info.plist] of a bundle. *)
Definition info_plist_of {host : Host} (app_path : str) : str :=
  path_join (path_join app_path (lit "Contents")) (lit "Info.plist").

(** A bundle that [MacOSDiscoverer._discover_app] cannot read: no
    [Info.plist] file, one that does not parse, or one without a bundle
    identifier. *)
Definition unreadable_bundle {host : Host} (app_path : str) (w : World) : Prop :=
  match fs w !! info_plist_of app_path with
  | Some (File data) =>
      match plist_load data with
      | Some plist =>
          MacOSDiscoverer.plist_get plist (lit "CFBundleIdentifier") = []
      | None => True
      end
  | _ => True
  end.

(** The discoverer asked for icons, with and without a directory for them. *)
Definition with_icons_dir : Discoverer :=
  {| extract_icons := true; icons_dir := Some (lit "/icons") |}.

(** The macOS machine with that directory in place. *)
Definition mac_world_with_icons : World :=
  set_fs <[lit "/icons" := Dir]> mac_world.

Definition with_inline_icons : Discoverer :=
  {| extract_icons := true; icons_dir := None |}.

Definition without_icons : Discoverer :=
  {| extract_icons := false; icons_dir := None |}.

(** The executables the Windows discoverer passes over by name, and those it
    keeps: the ones [is_ai_related] recognises by their stem. *)
Definition windows_skipped {host : Host} (exe_path : str) : bool :=
  any_in (lower (path_name exe_path))
    (map lit ["uninstall"; "update"; "setup"; "installer"]%string).

Definition windows_recognised {host : Host} (exe_path : str) : bool :=
  (is_ai_related (path_stem exe_path) []).1 ||
  (is_ai_related (path_stem exe_path) []).2.

Definition windows_kept {host : Host} (exe_path : str) : bool :=
  negb (windows_skipped exe_path) && windows_recognised exe_path.

(** The executables the Windows discoverer meets, in scan order: the
    listing of every search path that exists. *)
Definition windows_candidates {host : Host} (files : gmap str node) : list str :=
  concat (map (λ search_path,
                 if bool_decide (is_Some (files !! search_path))
                 then rglob files search_path (lit "*.exe")
                 else [])
              WindowsDiscoverer.search_paths).

(** A Windows machine: paths with backslashes, two executables of Cursor
    (one of them its uninstaller), one of an editor that is not recognised,
    and Cursor installed a second time for the user. *)
Definition backslash : N := 92.

Definition windows_name (p : str) : str := default [] (last (split_on backslash p)).

Definition windows_stem (p : str) : str :=
  match split_on dot (windows_name p) with
  | [] | [_] => windows_name p
  | pieces =>
      take (length (windows_name p) - S (length (default [] (last pieces))))
           (windows_name p)
  end.

Definition windows_listing : list (str * list str) :=
  [ (lit "C:\Program Files",
     [ lit "C:\Program Files\Cursor\Cursor.exe";
       lit "C:\Program Files\Cursor\Uninstall Cursor.exe";
       lit "C:\Program Files\Notepad\notepad.exe" ]);
    (lit "Programs",
     [ lit "Programs\cursor\Cursor.exe" ]) ].

Definition windows_host : Host :=
  {| lower := ascii_lower;
     mk_path := id;
     path_join := λ p c, if nonempty p then p ++ [backslash] ++ c else c;
     path_name := windows_name;
     path_stem := windows_stem;
     path_suffix := λ p, drop (length (windows_stem p)) (windows_name p);
     path_parent := λ p, take (length p - length (windows_name p) - 1) p;
     system := lit "Windows";
     home := lit "C:\Users\user";
     environ := λ _, None;
     glob := λ _, glob_listing windows_listing;
     rglob := λ _, glob_listing windows_listing;
     iterdir := λ _, entries windows_listing;
     plist_load := parse_key_values;
     decode_text := Some;
     copyright_search := λ _, None;
     codesign := λ _, codesign_missing;
     sips := sips_missing;
     mkstemp := λ _, lit "C:\Temp\tmpicon.png";
     b64encode := id;
     isoformat := λ _, lit "2024-01-01T00:00:00";
     node_hash := lit "0123456789ab" |}.

Definition windows_world : World :=
  {| fs := list_to_map [ (lit "C:\Program Files", Dir); (lit "Programs", Dir) ];
     clock := 0;
     errors := [] |}.

(** What makes a record of the Windows discoverer. *)
Definition windows_record {host : Host} (a : DiscoveredApp) : Prop :=
  is_ai_app a || is_ai_host a = true ∧
  name a = path_stem (path a) ∧
  category a = lit "other" ∧
  macos a = None ∧ linux a = None ∧
  windows a = Some {| bundle_id := None; team_id := None; paths := [path a];
                      executable_name := Some (path_name (path a));
                      publisher := None; version := None |}.

(** A string without white space at either end. *)
Definition stripped (s : str) : Prop :=
  (∀ c, head s = Some c → is_space c = false) ∧
  (∀ c, last s = Some c → is_space c = false).

(** A desktop entry that cannot be read: no such file, a directory, or a
    content that does not decode. *)
Definition unreadable_entry {host : Host} (file : str) (w : World) : Prop :=
  match fs w !! file with
  | Some (File data) => decode_text data = None
  | _ => True
  end.

(** A desktop entry whose [Exec=] line carries nothing. *)
Definition blank_exec_entry : str :=
  lit "[Desktop Entry]" ++ [newline] ++
  lit "Name=Broken" ++ [newline] ++
  lit "Exec=  ".

(** A machine of a platform the script does not know. *)
Definition bsd_host : Host :=
  fixture (lit "FreeBSD") [] codesign_missing sips_missing.

(** The names of the fields of [DiscoveredApp], in declaration order. *)
Definition field_names : list str :=
  map lit [ "app_id"; "name"; "vendor"; "category"; "path"; "macos"; "windows";
            "linux"; "icon_path"; "icon_base64"; "is_ai_app"; "is_ai_host";
            "discovered_at"; "machine_id" ]%string.

(** The five categories. *)
Definition categories : list str :=
  map lit [ "dev_tools"; "chat"; "productivity"; "creative"; "other" ]%string.

(** The record with other values in the two fields the profile document
    does not show. *)
Definition with_hidden_fields (a : DiscoveredApp) (inline_icon : option str)
    (machine : str) : DiscoveredApp :=
  {| app_id := app_id a; name := name a; vendor := vendor a;
     category := category a; path := path a;
     macos := macos a; windows := windows a; linux := linux a;
     icon_path := icon_path a; icon_base64 := inline_icon;
     is_ai_app := is_ai_app a; is_ai_host := is_ai_host a;
     discovered_at := discovered_at a; machine_id := machine |}.

(** [subprocess.run] answering with an exit status and an output, and
    running out of time. *)
Definition run_answers (status : Z) (output : str) : M CompletedProcess :=
  λ w, (Ok {| returncode := status; stdout := output; stderr := [] |}, w).

Definition run_times_out : M CompletedProcess := raise TimeoutExpired.

(** * Properties *)

(** ** Classification *)

Section ClassificationFacts.
Context {host : Host}.

Lemma existsb_elem {A} (f : A → bool) (l : list A) (x : A) :
  x ∈ l → f x = true → existsb f l = true.
Proof.
  intros Hin Hf. apply existsb_exists. exists x. split; [|done].
  by apply list_elem_of_In.
Qed.

(** C3: [is_ai_related] returns one of the three states AI application,
    AI host, neither -- never both flags -- and a name whose lower-cased form
    contains an AI keyword is classified as an AI application, whether or not
    it also contains a host keyword. *)
Theorem is_ai_related_three_states (name bundle : str) :
  (is_ai_related name bundle = (true, false) ∨
   is_ai_related name bundle = (false, true) ∨
   is_ai_related name bundle = (false, false)) ∧
  is_ai_related name bundle ≠ (true, true) ∧
  (∀ keyword, keyword ∈ AI_APP_KEYWORDS →
     contains (lower name) keyword = true →
     is_ai_related name bundle = (true, false)).
Proof.
  unfold is_ai_related. split; [|split].
  - repeat case_match; auto.
  - repeat case_match; congruence.
  - intros keyword Hin Hc.
    rewrite (existsb_elem _ _ keyword Hin); [done|].
    by rewrite Hc.
Qed.

End ClassificationFacts.

Lemma is_ai_related_three_states_witness :
  contains (lower (Host := linux_host) (lit "Cursor for Visual Studio Code"))
    (lit "visual studio code") = true ∧
  is_ai_related (host := linux_host) (lit "Cursor for Visual Studio Code") []
  = (true, false).
Proof.
  split; [reflexivity|].
  destruct (is_ai_related_three_states (host := linux_host)
              (lit "Cursor for Visual Studio Code") []) as (_ & _ & Hkeyword).
  apply (Hkeyword (lit "cursor")); [|reflexivity].
  unfold AI_APP_KEYWORDS. simpl. left.
Defined.

(** ** Application identifiers *)

Section DropWhile.
Context {A : Type} (p : A → bool).

Lemma drop_while_suffix (l : list A) : drop_while p l `suffix_of` l.
Proof.
  induction l as [|x l IH]; simpl; [done|].
  destruct (p x); [by apply suffix_cons_r | done].
Qed.

Lemma drop_while_head (l : list A) x : head (drop_while p l) = Some x → p x = false.
Proof.
  induction l as [|y l IH]; simpl; [done|].
  destruct (p y) eqn:Hy; [done|]. simpl. congruence.
Qed.

Lemma drop_while_keeps (l : list A) x : x ∈ l → p x = false → x ∈ drop_while p l.
Proof.
  induction l as [|y l IH]; simpl; [done|].
  intros Hin Hx. destruct (p y) eqn:Hy; [|done].
  apply elem_of_cons in Hin as [->|Hin]; [congruence | by apply IH].
Qed.

End DropWhile.

Lemma strip_chars_infix p (s : str) :
  ∃ l1 l2, s = l1 ++ strip_chars p s ++ l2.
Proof.
  unfold strip_chars.
  destruct (drop_while_suffix p s) as [l1 H1].
  destruct (drop_while_suffix p (reverse (drop_while p s))) as [k H2].
  exists l1, (reverse k).
  rewrite H1 at 1. f_equal.
  rewrite <- (reverse_involutive (drop_while p s)) at 1.
  rewrite H2 at 1. by rewrite reverse_app.
Qed.

Lemma strip_chars_head p (s : str) x : head (strip_chars p s) = Some x → p x = false.
Proof.
  unfold strip_chars. intros Hh.
  set (t := drop_while p s) in *.
  destruct (drop_while_suffix p (reverse t)) as [k Hk].
  assert (Ht : t = reverse (drop_while p (reverse t)) ++ reverse k).
  { rewrite <- (reverse_involutive t) at 1. rewrite Hk at 1. by rewrite reverse_app. }
  apply (drop_while_head p s). fold t. rewrite Ht.
  destruct (reverse (drop_while p (reverse t))); [done|]. exact Hh.
Qed.

Lemma strip_chars_last p (s : str) x : last (strip_chars p s) = Some x → p x = false.
Proof.
  unfold strip_chars. rewrite last_reverse. apply drop_while_head.
Qed.

Lemma strip_chars_keeps p (s : str) x : x ∈ s → p x = false → x ∈ strip_chars p s.
Proof.
  intros Hin Hx. unfold strip_chars.
  apply elem_of_reverse, drop_while_keeps; [|done].
  apply elem_of_reverse. by apply drop_while_keeps.
Qed.

Lemma no_double_hyphen_app_r (l1 l2 : str) :
  no_double_hyphen (l1 ++ l2) = true → no_double_hyphen l2 = true.
Proof.
  induction l1 as [|a l1 IH]; simpl; [done|].
  destruct (l1 ++ l2) eqn:E.
  - apply app_eq_nil in E as [_ ->]. done.
  - intros Hd. apply andb_true_iff in Hd as [_ Hd]. by apply IH.
Qed.

Lemma no_double_hyphen_app_l (l1 l2 : str) :
  no_double_hyphen (l1 ++ l2) = true → no_double_hyphen l1 = true.
Proof.
  induction l1 as [|a l1 IH]; simpl; [done|].
  destruct l1 as [|b l1]; [done|]. simpl in *.
  intros Hd. apply andb_true_iff in Hd as [Hab Hd].
  rewrite Hab. simpl. by apply IH.
Qed.

Lemma is_slug_char_not_hyphen c : is_slug_char c = true → (c =? hyphen) = false.
Proof.
  unfold is_slug_char, hyphen.
  rewrite orb_true_iff, !andb_true_iff, !N.leb_le. intros Hc.
  apply N.eqb_neq. lia.
Qed.

Lemma no_double_hyphen_cons a (l : str) :
  (a =? hyphen) = false ∨ head l ≠ Some hyphen →
  no_double_hyphen l = true → no_double_hyphen (a :: l) = true.
Proof.
  intros Hor Hl. destruct l as [|b t]; [done|].
  change (negb ((a =? hyphen) && (b =? hyphen)) && no_double_hyphen (b :: t) = true).
  rewrite Hl, andb_true_r. destruct Hor as [-> | Hb]; [done|].
  destruct (N.eqb_spec b hyphen) as [->|_]; [by destruct Hb|].
  by rewrite andb_false_r.
Qed.

(** The output of the substitution: its alphabet, and where hyphens stand. *)
Lemma sub_runs_shape (s : str) (in_run : bool) :
  Forall (λ c, is_slug_or_hyphen c = true) (sub_runs in_run s) ∧
  no_double_hyphen (sub_runs in_run s) = true ∧
  (in_run = true → head (sub_runs in_run s) ≠ Some hyphen).
Proof.
  revert in_run. induction s as [|c s IH]; intros in_run; simpl.
  - split; [constructor|]. split; [done|]. done.
  - destruct (is_slug_char c) eqn:Hc.
    + destruct (IH false) as (Ha & Hd & _). split; [|split].
      * constructor; [|done]. unfold is_slug_or_hyphen. by rewrite Hc.
      * apply no_double_hyphen_cons; [|done].
        left. by apply is_slug_char_not_hyphen.
      * intros _. simpl. intros [= ->]. done.
    + destruct in_run.
      * apply IH.
      * destruct (IH true) as (Ha & Hd & Hh). split; [|split]; [| |done].
        -- constructor; [|done]. unfold is_slug_or_hyphen.
           by rewrite orb_true_r.
        -- apply no_double_hyphen_cons; [|done]. right. by apply Hh.
Qed.

Lemma sub_runs_keeps (s : str) (in_run : bool) c :
  c ∈ s → is_slug_char c = true → c ∈ sub_runs in_run s.
Proof.
  revert in_run. induction s as [|d s IH]; intros in_run Hin Hc; [by inversion Hin|].
  simpl. apply elem_of_cons in Hin as [<-|Hin].
  - rewrite Hc. by left.
  - destruct (is_slug_char d); [right; by apply IH|].
    destruct in_run; [by apply IH | right; by apply IH].
Qed.

Lemma sub_runs_no_slug (s : str) :
  Forall (λ c, is_slug_char c = false) s →
  sub_runs true s = [] ∧ (sub_runs false s = [] ∨ sub_runs false s = [hyphen]).
Proof.
  induction 1 as [|c s Hc _ [IH1 IH2]]; simpl; [auto|].
  rewrite Hc. split; [done|]. right. by rewrite IH1.
Qed.

(** Consequences of [lower_ok]. *)
Lemma lower_ok_keeps low (s : str) c :
  lower_ok low → c ∈ s → is_ascii c = true → ascii_lower_char c ∈ low s.
Proof.
  intros Hlow Hin Hc. destruct (Hlow s) as (pieces & -> & HF).
  induction HF as [|d piece s pieces Hd _ IH]; [by inversion Hin|].
  simpl. apply elem_of_app. apply elem_of_cons in Hin as [<-|Hin].
  - left. rewrite (Hd Hc). by left.
  - right. by apply IH.
Qed.

Lemma lower_ok_ascii low (s : str) :
  lower_ok low → Forall (λ c, is_ascii c = true) s → low s = map ascii_lower_char s.
Proof.
  intros Hlow Hs. destruct (Hlow s) as (pieces & -> & HF).
  induction HF as [|d piece s pieces Hd _ IH]; [done|].
  inversion Hs; subst. simpl. rewrite Hd by done. simpl. f_equal. by apply IH.
Qed.

Lemma ascii_lower_ok : lower_ok ascii_lower.
Proof.
  intros s. exists (map (λ c, [ascii_lower_char c]) s). split.
  - unfold ascii_lower. induction s as [|c s IH]; simpl; [done|]. by rewrite IH.
  - induction s as [|c s IH]; simpl; constructor; done.
Qed.

Lemma ascii_alnum_lower c :
  is_ascii_alnum c = true →
  is_ascii c = true ∧ is_slug_char (ascii_lower_char c) = true.
Proof.
  unfold is_ascii_alnum, is_ascii, is_slug_char, ascii_lower_char.
  rewrite !orb_true_iff, !andb_true_iff, !N.leb_le, N.ltb_lt. intros Hc.
  split; [lia|].
  destruct ((65 <=? c) && (c <=? 90)) eqn:E.
  - apply andb_true_iff in E as [E1 E2]. apply N.leb_le in E1, E2. lia.
  - apply andb_false_iff in E.
    destruct E as [E|E]; apply N.leb_gt in E; lia.
Qed.

Section AppIdFacts.
Context {host : Host}.

(** C4, amended: for a name with at least one ASCII letter or digit,
    [generate_app_id] returns a non-empty string made of lower-case letters,
    digits and hyphens only, which neither starts nor ends with a hyphen and
    has no two hyphens in a row. *)
Theorem generate_app_id_wellformed (name : str) :
  lower_ok lower →
  (∃ c, c ∈ name ∧ is_ascii_alnum c = true) →
  generate_app_id name ≠ [] ∧
  Forall (λ c, is_slug_or_hyphen c = true) (generate_app_id name) ∧
  head (generate_app_id name) ≠ Some hyphen ∧
  last (generate_app_id name) ≠ Some hyphen ∧
  no_double_hyphen (generate_app_id name) = true.
Proof.
  intros Hlow (c & Hin & Hc). unfold generate_app_id.
  set (subbed := sub_runs false (lower name)).
  destruct (sub_runs_shape (lower name) false) as (Halpha & Hdouble & _).
  fold subbed in Halpha, Hdouble.
  destruct (strip_chars_infix (λ c, c =? hyphen) subbed) as (l1 & l2 & Hsplit).
  destruct (ascii_alnum_lower c Hc) as [Hascii Hslug].
  assert (Hkept : ascii_lower_char c ∈ strip_chars (λ c, c =? hyphen) subbed).
  { apply strip_chars_keeps.
    - apply sub_runs_keeps; [|done]. by apply lower_ok_keeps.
    - by apply is_slug_char_not_hyphen. }
  repeat split.
  - intros Hnil. rewrite Hnil in Hkept. by inversion Hkept.
  - rewrite Hsplit in Halpha.
    apply Forall_app in Halpha as [_ Halpha]. by apply Forall_app in Halpha as [Halpha _].
  - intros Hh. by apply strip_chars_head in Hh.
  - intros Hl. by apply strip_chars_last in Hl.
  - rewrite Hsplit in Hdouble.
    by apply no_double_hyphen_app_r, no_double_hyphen_app_l in Hdouble.
Qed.

(** C10: [generate_app_id] is a total function on strings, and on a name
    made only of ASCII characters that are neither letters nor digits it
    returns the empty string. *)
Theorem generate_app_id_no_alnum (name : str) :
  (∃ app_id, generate_app_id name = app_id) ∧
  (lower_ok lower →
   Forall (λ c, is_ascii c = true ∧ is_ascii_alnum c = false) name →
   generate_app_id name = []).
Proof.
  split; [by eexists|]. intros Hlow Hname. unfold generate_app_id.
  rewrite (lower_ok_ascii lower name Hlow)
    by (eapply Forall_impl; [exact Hname | by intros ? []]).
  assert (Hnone : Forall (λ c, is_slug_char c = false) (map ascii_lower_char name)).
  { apply Forall_map. eapply Forall_impl; [exact Hname|].
    intros c [_ Hc]. simpl. revert Hc.
    unfold is_ascii_alnum, is_slug_char, ascii_lower_char.
    rewrite !orb_false_iff, !andb_false_iff, !N.leb_gt. intros Hc.
    destruct ((65 <=? c) && (c <=? 90)) eqn:E.
    - apply andb_true_iff in E as [E1 E2]. apply N.leb_le in E1, E2. lia.
    - lia. }
  destruct (sub_runs_no_slug _ Hnone) as [_ [-> | ->]]; reflexivity.
Qed.

End AppIdFacts.

Lemma generate_app_id_wellformed_witness :
  let host := linux_host in
  generate_app_id (lit "Visual Studio Code") = lit "visual-studio-code" ∧
  generate_app_id (lit "Visual Studio Code") ≠ [] ∧
  Forall (λ c, is_slug_or_hyphen c = true) (generate_app_id (lit "Visual Studio Code")) ∧
  head (generate_app_id (lit "Visual Studio Code")) ≠ Some hyphen ∧
  last (generate_app_id (lit "Visual Studio Code")) ≠ Some hyphen ∧
  no_double_hyphen (generate_app_id (lit "Visual Studio Code")) = true.
Proof.
  intros host. split; [reflexivity|].
  apply (generate_app_id_wellformed (host := host) (lit "Visual Studio Code")).
  - apply ascii_lower_ok.
  - exists 86. split; [|reflexivity]. simpl. left.
Defined.

(** C4, as stated, fails: a name made of letters none of which is ASCII has
    an empty identifier.  The ideographs have no case, so the [lower] of the
    concrete host is [str.lower] on this name. *)
Lemma generate_app_id_empty_for_ideographs :
  ¬ (∀ name : str,
       (∃ c, c ∈ name ∧ is_letter_or_digit c = true) →
       generate_app_id (host := linux_host) name ≠ []).
Proof.
  intros Hnonempty. apply (Hnonempty wechat); [|reflexivity].
  exists 24494. split; [left | reflexivity].
Qed.

Lemma generate_app_id_no_alnum_witness :
  let host := linux_host in
  generate_app_id (lit "!!! ???") = [].
Proof.
  intros host.
  apply (generate_app_id_no_alnum (host := host) (lit "!!! ???")).
  - apply ascii_lower_ok.
  - simpl. repeat constructor.
Defined.

(** ** The structured document *)

Lemma existsb_filter_self {A} (f : A → bool) (l : list A) :
  existsb f (filter (λ v, f v = true) l) = existsb f l.
Proof.
  induction l as [|x l IH]; [done|].
  rewrite filter_cons. simpl. destruct (f x) eqn:Hx.
  - rewrite decide_True by done. simpl. by rewrite Hx.
  - rewrite decide_False by congruence. done.
Qed.

Lemma dict_get_middle (pre post : dict) k v :
  key_absent k pre = true → dict_get (pre ++ (k, v) :: post) k = v.
Proof.
  induction pre as [|[k' v'] pre IH]; simpl.
  - intros _. by rewrite bool_decide_eq_true_2.
  - intros Hk. apply andb_true_iff in Hk as [Hk' Hk].
    apply negb_true_iff in Hk'. rewrite Hk'. by apply IH.
Qed.

Lemma dict_set_middle (pre post : dict) k v v' :
  key_absent k pre = true →
  dict_set (pre ++ (k, v) :: post) k v' = pre ++ (k, v') :: post.
Proof.
  induction pre as [|[k0 v0] pre IH]; simpl.
  - intros _. by rewrite bool_decide_eq_true_2.
  - intros Hk. apply andb_true_iff in Hk as [Hk' Hk].
    apply negb_true_iff in Hk'. rewrite Hk'. by rewrite IH.
Qed.

(** One clean-up statement replaces the signature stored under its key by
    what is emitted for it, and touches nothing else. *)
Lemma clear_empty_signature_middle (pre post : dict) k (o : option AppSignature) :
  key_absent k pre = true →
  clear_empty_signature k (pre ++ (k, opt_signature o) :: post) =
  pre ++ (k, emitted_signature o) :: post.
Proof.
  intros Hk. unfold clear_empty_signature.
  rewrite (dict_get_middle _ _ _ _ Hk).
  destruct o as [s|]; simpl opt_signature; [|done].
  rewrite existsb_filter_self.
  change (truthy (VDict (asdict_signature s))) with true.
  change (dict_values (VDict (asdict_signature s)))
    with (map snd (asdict_signature s)).
  unfold emitted_signature, signature_has_data.
  destruct (existsb truthy (map snd (asdict_signature s))).
  - done.
  - apply (dict_set_middle _ _ _ _ _ Hk).
Qed.

(** [to_dict] written out: the fields in declaration order, the signatures
    normalised, the inline icon dropped on request, nulls filtered. *)
Lemma to_dict_unfold (a : DiscoveredApp) (include_icon : bool) :
  to_dict a include_icon =
  filter (λ kv, is_none kv.2 = false)
    ([ (lit "app_id", VStr (app_id a));
       (lit "name", VStr (name a));
       (lit "vendor", opt_str (vendor a));
       (lit "category", VStr (category a));
       (lit "path", VStr (path a));
       (lit "macos", emitted_signature (macos a));
       (lit "windows", emitted_signature (windows a));
       (lit "linux", emitted_signature (linux a));
       (lit "icon_path", opt_str (icon_path a)) ] ++
     (if include_icon then [ (lit "icon_base64", opt_str (icon_base64 a)) ] else []) ++
     [ (lit "is_ai_app", VBool (is_ai_app a));
       (lit "is_ai_host", VBool (is_ai_host a));
       (lit "discovered_at", VStr (discovered_at a));
       (lit "machine_id", VStr (machine_id a)) ]).
Proof.
  unfold to_dict, asdict.
  pose proof (clear_empty_signature_middle
    [ (lit "app_id", VStr (app_id a)); (lit "name", VStr (name a));
      (lit "vendor", opt_str (vendor a)); (lit "category", VStr (category a));
      (lit "path", VStr (path a)) ]) as E1.
  simpl app in E1. rewrite E1 by reflexivity. clear E1.
  pose proof (clear_empty_signature_middle
    [ (lit "app_id", VStr (app_id a)); (lit "name", VStr (name a));
      (lit "vendor", opt_str (vendor a)); (lit "category", VStr (category a));
      (lit "path", VStr (path a)); (lit "macos", emitted_signature (macos a)) ]) as E2.
  simpl app in E2. rewrite E2 by reflexivity. clear E2.
  pose proof (clear_empty_signature_middle
    [ (lit "app_id", VStr (app_id a)); (lit "name", VStr (name a));
      (lit "vendor", opt_str (vendor a)); (lit "category", VStr (category a));
      (lit "path", VStr (path a)); (lit "macos", emitted_signature (macos a));
      (lit "windows", emitted_signature (windows a)) ]) as E3.
  simpl app in E3. rewrite E3 by reflexivity. clear E3.
  destruct include_icon; reflexivity.
Qed.

Lemma dict_get_absent (d : dict) k : key_absent k d = true → dict_get d k = VNone.
Proof.
  induction d as [|[k' v'] d IH]; simpl; [done|].
  intros Hk. apply andb_true_iff in Hk as [Hk' Hk].
  apply negb_true_iff in Hk'. rewrite Hk'. by apply IH.
Qed.

Lemma key_absent_filter (P : str * value → Prop) `{!∀ kv, Decision (P kv)}
    (d : dict) k :
  key_absent k d = true → key_absent k (filter P d) = true.
Proof.
  induction d as [|kv d IH]; [done|]. simpl.
  intros Hk. apply andb_true_iff in Hk as [Hk' Hk].
  rewrite filter_cons. destruct (decide (P kv)); simpl; [rewrite Hk'|]; by apply IH.
Qed.

(** Filtering the nulls out does not change what [get] returns, as long as
    no key occurs twice. *)
Lemma dict_get_filter_none (d : dict) k :
  distinct_keys d = true →
  dict_get (filter (λ kv, is_none kv.2 = false) d) k = dict_get d k.
Proof.
  induction d as [|[k' v'] d IH]; [done|]. simpl.
  intros Hd. apply andb_true_iff in Hd as [Hk' Hd].
  rewrite filter_cons. simpl. destruct (decide (is_none v' = false)) as [Hv|Hv]; simpl.
  - destruct (bool_decide (k' = k)); [done | by apply IH].
  - destruct (bool_decide (k' = k)) eqn:Hkk.
    + apply bool_decide_eq_true in Hkk as <-.
      rewrite dict_get_absent by by apply key_absent_filter.
      by destruct v'.
    + by apply IH.
Qed.

Lemma filter_none_values (d : dict) :
  Forall (λ kv, kv.2 ≠ VNone) (filter (λ kv, is_none kv.2 = false) d).
Proof.
  induction d as [|[k v] d IH]; [constructor|].
  rewrite filter_cons. simpl. destruct (decide (is_none v = false)) as [Hv|Hv]; [|done].
  constructor; [|done]. simpl. by intros ->.
Qed.

(** The ChatGPT record is what the macOS discoverer returns on the concrete
    machine. *)
Example discover_app_chatgpt :
  (MacOSDiscoverer._discover_app (host := mac_host)
     {| extract_icons := false; icons_dir := None |}
     (lit "/Applications/ChatGPT.app") mac_world).1 = Ok (Some chatgpt_app).
Proof. vm_compute. reflexivity. Qed.

(** The ChatGPT record exported: the signature object is emitted with all
    its keys, the publisher, which the discoverer never sets, as a null. *)
Example to_dict_chatgpt :
  to_dict chatgpt_app true =
  [ (lit "app_id", VStr (lit "chatgpt"));
    (lit "name", VStr (lit "ChatGPT"));
    (lit "category", VStr (lit "chat"));
    (lit "path", VStr (lit "/Applications/ChatGPT.app"));
    (lit "macos", VDict
       [ (lit "bundle_id", VStr (lit "com.openai.chat"));
         (lit "team_id", VStr (lit "2DC432GLL2"));
         (lit "paths", VList [lit "/Applications/ChatGPT.app"]);
         (lit "executable_name", VStr (lit "ChatGPT"));
         (lit "publisher", VNone);
         (lit "version", VStr (lit "1.0")) ]);
    (lit "is_ai_app", VBool true);
    (lit "is_ai_host", VBool false);
    (lit "discovered_at", VStr (lit "2024-01-01T00:00:00"));
    (lit "machine_id", VStr (lit "0123456789ab")) ].
Proof. vm_compute. reflexivity. Qed.

(** The record for the entry without [Exec=] exported: its signature has no
    data and is left out, its empty path is emitted. *)
Example to_dict_files :
  to_dict files_app true =
  [ (lit "app_id", VStr (lit "files"));
    (lit "name", VStr (lit "Files"));
    (lit "category", VStr (lit "other"));
    (lit "path", VStr []);
    (lit "is_ai_app", VBool false);
    (lit "is_ai_host", VBool false);
    (lit "discovered_at", VStr (lit "2024-01-01T00:00:00"));
    (lit "machine_id", VStr (lit "0123456789ab")) ].
Proof. vm_compute. reflexivity. Qed.

(** C9, as stated, fails: the record of a desktop entry without [Exec=] is
    exported with a key whose value is the empty string. *)
Lemma to_dict_keeps_empty_values :
  ¬ (∀ (a : DiscoveredApp) (include_icon : bool),
       no_blank_values (to_dict a include_icon) = true).
Proof. intros Hall. specialize (Hall files_app true). vm_compute in Hall. discriminate. Qed.

(** C9, amended: [to_dict] emits no top-level key with a null value; the key
    of a platform signature is emitted exactly when the signature is there
    and one of its fields has data; [vendor], [icon_path] and [icon_base64]
    are emitted exactly when they are set, and [path] always, an empty string
    being a value like another; without the icon the [icon_base64] key is
    gone. *)
Theorem to_dict_omits_top_level_none (a : DiscoveredApp) (include_icon : bool) :
  Forall (λ kv, kv.2 ≠ VNone) (to_dict a include_icon) ∧
  is_none (dict_get (to_dict a include_icon) (lit "macos"))
    = negb (signature_emitted (macos a)) ∧
  is_none (dict_get (to_dict a include_icon) (lit "windows"))
    = negb (signature_emitted (windows a)) ∧
  is_none (dict_get (to_dict a include_icon) (lit "linux"))
    = negb (signature_emitted (linux a)) ∧
  dict_get (to_dict a include_icon) (lit "vendor") = opt_str (vendor a) ∧
  dict_get (to_dict a include_icon) (lit "path") = VStr (path a) ∧
  dict_get (to_dict a include_icon) (lit "icon_path") = opt_str (icon_path a) ∧
  dict_get (to_dict a true) (lit "icon_base64") = opt_str (icon_base64 a) ∧
  key_absent (lit "icon_base64") (to_dict a false) = true.
Proof.
  rewrite !to_dict_unfold.
  assert (Hsig : ∀ o, is_none (emitted_signature o) = negb (signature_emitted o)).
  { intros [s|]; [|done]. simpl. by destruct (signature_has_data s). }
  rewrite <- !Hsig.
  split; [apply filter_none_values|].
  repeat split;
    try (rewrite dict_get_filter_none by (by destruct include_icon);
         by destruct include_icon).
  by apply key_absent_filter.
Qed.

(** ** Code signing *)

Section SigningFacts.
Context {host : Host}.

(** C1 (the code departs from it): when running [codesign] raises -- the
    tool is not installed, or it times out -- [_get_team_id] does not return
    [None]: the exception leaves the method. *)
Theorem get_team_id_propagates (app_path : str) (w : World) (e : exn) :
  codesign w app_path = RunRaises e →
  MacOSDiscoverer._get_team_id app_path w = (Raise e, w).
Proof.
  intros Hrun. unfold MacOSDiscoverer._get_team_id, MacOSDiscoverer.run_codesign.
  unfold mbind, M_bind. by rewrite Hrun.
Qed.

(** When [codesign] runs to its end the exit status is not looked at: the
    answer is read off the diagnostic output alone. *)
Lemma get_team_id_completed (app_path : str) (w : World) (p : CompletedProcess) :
  codesign w app_path = Completed p →
  MacOSDiscoverer._get_team_id app_path w =
  (if nonempty (stderr p)
   then MacOSDiscoverer.scan_team_id (split_on newline (stderr p))
   else mret None) w.
Proof.
  intros Hrun. unfold MacOSDiscoverer._get_team_id, MacOSDiscoverer.run_codesign.
  unfold mbind, M_bind. by rewrite Hrun.
Qed.

End SigningFacts.

Lemma get_team_id_propagates_witness :
  MacOSDiscoverer._get_team_id (host := mac_without_codesign)
    (lit "/Applications/ChatGPT.app") mac_world
  = (Raise FileNotFoundError, mac_world).
Proof.
  apply (get_team_id_propagates (host := mac_without_codesign)).
  reflexivity.
Defined.

(** Without [codesign] the whole macOS discovery stops with the exception. *)
Example discover_all_aborts_without_codesign :
  (MacOSDiscoverer.discover_all (host := mac_without_codesign)
     {| extract_icons := false; icons_dir := None |} mac_world).1
  = Raise FileNotFoundError.
Proof. vm_compute. reflexivity. Qed.

(** ** Icon extraction *)

Section IconFacts.
Context {host : Host}.

(** When [sips] raises, nothing is removed: the file system is left as the
    child process left it, temporary file included. *)
Lemma convert_icon_raises (app_path icon_path : str) (w : World) (e : exn)
    (fs' : gmap str node) :
  sips (with_temp_file w) icon_path (mkstemp (fs w)) = (RunRaises e, fs') →
  ∃ w', MacOSDiscoverer.convert_icon app_path icon_path w = (Ok None, w') ∧
        fs w' = fs'.
Proof.
  intros Hrun.
  unfold MacOSDiscoverer.convert_icon, try_except, mbind, M_bind,
    MacOSDiscoverer.named_temporary_file, MacOSDiscoverer.run_sips.
  fold (with_temp_file w). rewrite Hrun. simpl. eauto.
Qed.

(** When [sips] runs to its end, whatever its exit status, and did not put a
    directory in place of the output file, the temporary file is gone when
    the conversion returns. *)
Lemma convert_icon_completed (app_path icon_path : str) (w : World)
    (p : CompletedProcess) (fs' : gmap str node) :
  sips (with_temp_file w) icon_path (mkstemp (fs w)) = (Completed p, fs') →
  fs' !! mkstemp (fs w) ≠ Some Dir →
  fs (MacOSDiscoverer.convert_icon app_path icon_path w).2 !! mkstemp (fs w) = None.
Proof.
  intros Hrun Hdir.
  unfold MacOSDiscoverer.convert_icon, try_except, mbind, M_bind,
    MacOSDiscoverer.named_temporary_file, MacOSDiscoverer.run_sips.
  fold (with_temp_file w). rewrite Hrun.
  unfold path_exists, read_bytes, unlink. simpl.
  destruct (fs' !! mkstemp (fs w)) as [[data|]|] eqn:Htmp; [| done |].
  - rewrite bool_decide_eq_true_2 by eauto.
    destruct (returncode p =? 0)%Z; simpl; rewrite Htmp; simpl;
      try rewrite Htmp; simpl; apply lookup_delete_eq.
  - rewrite bool_decide_eq_false_2 by (by intros [? ?]).
    rewrite andb_false_r. simpl. rewrite Htmp.
    rewrite bool_decide_eq_false_2 by (by intros [? ?]).
    simpl. exact Htmp.
Qed.

End IconFacts.

(** C2 (the code departs from it): with [sips] not installed, running it
    raises inside [_extract_icon]; the handler reports the failure and the
    method returns [None], but the temporary file it created is still
    there. *)
Theorem extract_icon_leaves_temp_file :
  let plist := default ∅ (parse_key_values chatgpt_plist) in
  let run := MacOSDiscoverer._extract_icon (host := mac_without_sips)
               (lit "/Applications/ChatGPT.app") plist mac_world in
  fs mac_world !! lit "/tmp/tmpicon.png" = None ∧
  run.1 = Ok None ∧
  fs run.2 !! lit "/tmp/tmpicon.png" = Some (File []) ∧
  errors run.2 = [IconFailed (lit "ChatGPT.app") FileNotFoundError].
Proof. vm_compute. auto. Qed.

(** On the same machine with [sips] installed the icon is returned and the
    temporary file is removed. *)
Example extract_icon_removes_temp_file :
  let plist := default ∅ (parse_key_values chatgpt_plist) in
  let run := MacOSDiscoverer._extract_icon (host := mac_host)
               (lit "/Applications/ChatGPT.app") plist mac_world in
  run.1 = Ok (Some (lit "PNG")) ∧
  fs run.2 !! lit "/tmp/tmpicon.png" = None.
Proof. vm_compute. auto. Qed.

(** ** Reasoning about monadic code *)

Lemma bind_ok {A B} (m : M A) (k : A → M B) w a w1 :
  m w = (Ok a, w1) → (m ≫= k) w = k a w1.
Proof. intros Hm. unfold mbind, M_bind. by rewrite Hm. Qed.

Lemma bind_inv {A B} (m : M A) (k : A → M B) w b w' :
  (m ≫= k) w = (Ok b, w') → ∃ a w1, m w = (Ok a, w1) ∧ k a w1 = (Ok b, w').
Proof.
  unfold mbind, M_bind. destruct (m w) as [[a|e] w1]; [eauto | done].
Qed.

Lemma for_each_cons {A B} (x : A) (l : list A) (body : A → B → M B) acc :
  for_each (x :: l) body acc = body x acc ≫= for_each l body.
Proof. reflexivity. Qed.

Lemma mret_inv {A} (a b : A) w w' :
  (mret a : M A) w = (Ok b, w') → a = b ∧ w = w'.
Proof. by intros [= -> ->]. Qed.

(** A property of the accumulator that every round of a loop preserves holds
    when the loop ends normally. *)
Lemma for_each_inv {A B} (P : B → Prop) (l : list A) (body : A → B → M B) :
  (∀ x acc w acc' w', P acc → body x acc w = (Ok acc', w') → P acc') →
  ∀ acc w r w', P acc → for_each l body acc w = (Ok r, w') → P r.
Proof.
  intros Hbody. induction l as [|x l IH]; intros acc w r w' Hacc Hrun; simpl in Hrun.
  - apply mret_inv in Hrun as [<- _]. done.
  - apply bind_inv in Hrun as (acc' & w1 & Hx & Hrest). eauto.
Qed.

(** ** Desktop entries *)

Lemma startswith_split (s p : str) :
  startswith s p = true → ∃ rest, s = p ++ rest.
Proof.
  revert s. induction p as [|a p IH]; intros s Hs; [by exists s|].
  destruct s as [|b s]; [done|]. simpl in Hs.
  apply andb_true_iff in Hs as [Hab Hs]. apply N.eqb_eq in Hab as ->.
  destruct (IH s Hs) as [rest ->]. by exists rest.
Qed.

Lemma name_line_value (line : str) :
  startswith line (lit "Name=") = true →
  split_once equals_sign line !! 1%nat = Some (line_value line).
Proof. intros Hs. apply startswith_split in Hs as [rest ->]. reflexivity. Qed.

Lemma exec_line_value (line : str) :
  startswith line (lit "Exec=") = true →
  split_once equals_sign line !! 1%nat = Some (line_value line).
Proof. intros Hs. apply startswith_split in Hs as [rest ->]. reflexivity. Qed.

Lemma name_line_not_exec (line : str) :
  startswith line (lit "Name=") = true → startswith line (lit "Exec=") = false.
Proof. intros Hs. apply startswith_split in Hs as [rest ->]. reflexivity. Qed.

Lemma last_or_cons {A B} (f : A → B) x (l : list A) init :
  last_or f (x :: l) init = last_or f l (Some (f x)).
Proof. unfold last_or. rewrite last_cons. by destruct (last l). Qed.

Section DesktopFacts.
Context {host : Host}.

Lemma parse_line_name (line : str) acc w :
  startswith line (lit "Name=") = true →
  LinuxDiscoverer.parse_line line acc w
  = (Ok (Some (strip (line_value line)), acc.2), w).
Proof.
  intros Hs. destruct acc as [n e]. unfold LinuxDiscoverer.parse_line.
  rewrite Hs. unfold item. by rewrite (name_line_value _ Hs).
Qed.

Lemma parse_line_exec (line : str) acc w :
  startswith line (lit "Name=") = false →
  startswith line (lit "Exec=") = true →
  split_ws (line_value line) ≠ [] →
  LinuxDiscoverer.parse_line line acc w
  = (Ok (acc.1, Some (strip (first_word (line_value line)))), w).
Proof.
  intros Hn He Hw. destruct acc as [n e]. unfold LinuxDiscoverer.parse_line.
  rewrite Hn, He. unfold item. rewrite (exec_line_value _ He).
  unfold first_word.
  destruct (split_ws (line_value line)) as [|word rest] eqn:E; [done|].
  rewrite (bind_ok _ _ w (line_value line) w) by done.
  rewrite E. reflexivity.
Qed.

Lemma parse_line_other (line : str) acc w :
  startswith line (lit "Name=") = false →
  startswith line (lit "Exec=") = false →
  LinuxDiscoverer.parse_line line acc w = (Ok acc, w).
Proof.
  intros Hn He. destruct acc as [n e]. unfold LinuxDiscoverer.parse_line.
  by rewrite Hn, He.
Qed.

(** The loop over the lines: each variable ends up with the value of the last
    line of its key. *)
Lemma parse_lines_last (lines : list str) n0 e0 w :
  Forall (λ line, split_ws (line_value line) ≠ [])
         (filter (λ line, startswith line (lit "Exec=") = true) lines) →
  for_each lines LinuxDiscoverer.parse_line (n0, e0) w
  = (Ok (last_or (λ line, strip (line_value line))
           (filter (λ line, startswith line (lit "Name=") = true) lines) n0,
         last_or (λ line, strip (first_word (line_value line)))
           (filter (λ line, startswith line (lit "Exec=") = true) lines) e0),
     w).
Proof.
  revert n0 e0. induction lines as [|line lines IH]; intros n0 e0 Hfilled; [done|].
  rewrite !filter_cons in *. rewrite for_each_cons.
  destruct (startswith line (lit "Name=")) eqn:Hn.
  - rewrite (name_line_not_exec _ Hn) in *.
    rewrite decide_True by done. rewrite decide_False in * by done.
    rewrite (bind_ok _ _ w _ w (parse_line_name line (n0, e0) w Hn)).
    rewrite last_or_cons. by apply IH.
  - rewrite decide_False by done.
    destruct (startswith line (lit "Exec=")) eqn:He.
    + rewrite decide_True in * by done.
      apply Forall_cons in Hfilled as [Hline Hfilled].
      rewrite (bind_ok _ _ w _ w (parse_line_exec line (n0, e0) w Hn He Hline)).
      rewrite last_or_cons. by apply IH.
    + rewrite decide_False in * by done.
      rewrite (bind_ok _ _ w _ w (parse_line_other line (n0, e0) w Hn He)).
      by apply IH.
Qed.

End DesktopFacts.

Section DesktopFileFacts.
Context {host : Host}.

Lemma read_text_ok (file : str) w data content :
  fs w !! file = Some (File data) → decode_text data = Some content →
  LinuxDiscoverer.read_text file w = (Ok (Some content), w).
Proof.
  intros Hfile Hdecode. unfold LinuxDiscoverer.read_text, try_except.
  rewrite (bind_ok _ _ w data w) by (unfold read_bytes; by rewrite Hfile).
  by rewrite Hdecode.
Qed.

(** What [_parse_desktop_file] returns for a readable entry without a blank
    [Exec=] line. *)
Lemma parse_desktop_file_spec (file : str) w data content :
  fs w !! file = Some (File data) → decode_text data = Some content →
  exec_lines_filled content →
  match parsed_name content with
  | Some (c :: n) =>
      ∃ a w', LinuxDiscoverer._parse_desktop_file file w = (Ok (Some a), w') ∧
              name a = c :: n ∧
              path a = default [] (parsed_exec content) ∧
              category a = lit "other" ∧
              (is_ai_app a, is_ai_host a) = is_ai_related (c :: n) []
  | _ => LinuxDiscoverer._parse_desktop_file file w = (Ok None, w)
  end.
Proof.
  intros Hfile Hdecode Hfilled. unfold LinuxDiscoverer._parse_desktop_file.
  rewrite (bind_ok _ _ w _ w (read_text_ok file w data content Hfile Hdecode)).
  rewrite (bind_ok _ _ w _ w (parse_lines_last _ None None w Hfilled)).
  unfold parsed_name, parsed_exec, key_lines, last_or.
  destruct (last (filter (λ line, startswith line (lit "Name=") = true)
                    (split_on newline content))) as [name_line|]; [|done].
  simpl. destruct (strip (line_value name_line)) as [|c n]; [done|].
  destruct (is_ai_related (c :: n) []) as [is_ai is_host] eqn:Hrel.
  unfold new_app, now_isoformat, mbind, M_bind. simpl.
  eexists _, _. split; [reflexivity|]. simpl.
  repeat split.
  destruct (last (filter (λ line, startswith line (lit "Exec=") = true)
                    (split_on newline content))) as [exec_line|]; [|done].
  simpl. by destruct (strip (first_word (line_value exec_line))).
Qed.

(** C8, amended: for a readable desktop entry none of whose [Exec=] lines is
    blank, the record carries the values of the last [Name=] line and of the
    last [Exec=] line (its first word); an entry without a [Name=] line, or
    whose last [Name=] value is empty, is skipped. *)
Theorem parse_desktop_file_last_occurrence (file : str) w data content :
  fs w !! file = Some (File data) → decode_text data = Some content →
  exec_lines_filled content →
  match parsed_name content with
  | Some (c :: n) =>
      ∃ a w', LinuxDiscoverer._parse_desktop_file file w = (Ok (Some a), w') ∧
              name a = c :: n ∧
              path a = default [] (parsed_exec content)
  | _ => LinuxDiscoverer._parse_desktop_file file w = (Ok None, w)
  end.
Proof.
  intros Hfile Hdecode Hfilled.
  pose proof (parse_desktop_file_spec file w data content Hfile Hdecode Hfilled) as Hspec.
  destruct (parsed_name content) as [[|c n]|]; [done| |done].
  destruct Hspec as (a & w' & Hrun & Hname & Hpath & _). eauto.
Qed.

End DesktopFileFacts.

Lemma exec_lines_filled_repeated : exec_lines_filled repeated_entry.
Proof. unfold exec_lines_filled. vm_compute. repeat constructor; discriminate. Qed.

Lemma parse_desktop_file_last_occurrence_witness :
  ∃ a w',
    LinuxDiscoverer._parse_desktop_file (host := linux_host) desktop_file
      (desktop_world repeated_entry) = (Ok (Some a), w') ∧
    name a = lit "Second" ∧ path a = lit "/usr/bin/second".
Proof.
  exact (parse_desktop_file_last_occurrence (host := linux_host) desktop_file
           (desktop_world repeated_entry) repeated_entry repeated_entry
           eq_refl eq_refl exec_lines_filled_repeated).
Defined.

(** The run of the parser on the entry with repeated keys. *)
Lemma repeated_entry_run :
  ∃ a w',
    LinuxDiscoverer._parse_desktop_file (host := linux_host) desktop_file
      (desktop_world repeated_entry) = (Ok (Some a), w') ∧
    name a = lit "Second" ∧ path a = lit "/usr/bin/second".
Proof. eexists _, _. split; [vm_compute; reflexivity|]. by vm_compute. Qed.

(** The run of the parser on the entry without [Exec=]. *)
Example files_entry_run :
  (LinuxDiscoverer._parse_desktop_file (host := linux_host) desktop_file
     (desktop_world files_entry)).1 = Ok (Some files_app).
Proof. vm_compute. reflexivity. Qed.

(** C8, as stated, fails: in an entry that repeats [Name=] and [Exec=] the
    record does not carry the values of the first lines. *)
Lemma parse_desktop_file_not_first_occurrence :
  ¬ (∀ content a w',
       LinuxDiscoverer._parse_desktop_file (host := linux_host) desktop_file
         (desktop_world content) = (Ok (Some a), w') →
       Some (name a) = first_name content ∧ Some (path a) = first_exec content).
Proof.
  intros Hfirst.
  destruct repeated_entry_run as (a & w' & Hrun & Hname & _).
  destruct (Hfirst repeated_entry a w' Hrun) as [Hn _].
  rewrite Hname in Hn. vm_compute in Hn. discriminate.
Qed.

(** ** What the collectors put into a record *)

Section RecordFacts.
Context {host : Host}.

Lemma new_app_inv i n v c p m wi l ai ah w a w' :
  new_app i n v c p m wi l ai ah w = (Ok a, w') →
  app_id a = i ∧ name a = n ∧ category a = c ∧ path a = p ∧
  macos a = m ∧ is_ai_app a = ai ∧ is_ai_host a = ah.
Proof. intros [= <- <-]. done. Qed.

Lemma attach_icon_inv self app_path plist app w a w' :
  MacOSDiscoverer.attach_icon self app_path plist app w = (Ok a, w') →
  app_id a = app_id app ∧ name a = name app ∧ category a = category app ∧
  path a = path app ∧ macos a = macos app ∧
  is_ai_app a = is_ai_app app ∧ is_ai_host a = is_ai_host app.
Proof.
  unfold MacOSDiscoverer.attach_icon. intros Hrun.
  destruct (extract_icons self); [|by apply mret_inv in Hrun as [<- _]].
  apply bind_inv in Hrun as (icon_data & w1 & _ & Hrun).
  destruct icon_data as [[|c data]|]; try by apply mret_inv in Hrun as [<- _].
  destruct (icons_dir self) as [dir|].
  - apply bind_inv in Hrun as (_ & w2 & _ & Hrun).
    by apply mret_inv in Hrun as [<- _].
  - by apply mret_inv in Hrun as [<- _].
Qed.

(** The record [MacOSDiscoverer._discover_app] returns: its bundle
    identifier is set and non-empty, its path is the bundle path, its flags
    are those of [is_ai_related] and its category that of [pick_category]. *)
Lemma macos_discover_app_inv self app_path w a w' :
  MacOSDiscoverer._discover_app self app_path w = (Ok (Some a), w') →
  ∃ signature b,
    macos a = Some signature ∧ bundle_id signature = Some b ∧ b ≠ [] ∧
    paths signature = [app_path] ∧ path a = app_path ∧
    (is_ai_app a, is_ai_host a) = is_ai_related (name a) b ∧
    category a = MacOSDiscoverer.pick_category (name a) (is_ai_app a) (is_ai_host a).
Proof.
  unfold MacOSDiscoverer._discover_app. intros Hrun.
  apply bind_inv in Hrun as (present & w1 & _ & Hrun).
  destruct present; [|by apply mret_inv in Hrun as [? _]].
  apply bind_inv in Hrun as (loaded & w2 & _ & Hrun).
  destruct loaded as [plist|]; [|by apply mret_inv in Hrun as [? _]].
  destruct (MacOSDiscoverer.plist_get plist (lit "CFBundleIdentifier"))
    as [|c0 b0] eqn:Hb; [by apply mret_inv in Hrun as [? _]|].
  apply bind_inv in Hrun as (team & w3 & _ & Hrun).
  match type of Hrun with
  | context [is_ai_related ?n ?b] =>
      set (nm := n) in *; destruct (is_ai_related nm b) as [is_ai is_host] eqn:Hrel
  end.
  apply bind_inv in Hrun as (app & w4 & Hnew & Hrun).
  apply bind_inv in Hrun as (app' & w5 & Hicon & Hrun).
  apply mret_inv in Hrun as [[= <-] _].
  apply new_app_inv in Hnew as (_ & Hn & Hc & Hp & Hm & Hai & Hah).
  apply attach_icon_inv in Hicon as (_ & Hn' & Hc' & Hp' & Hm' & Hai' & Hah').
  eexists _, (c0 :: b0). rewrite Hm', Hm, Hp', Hp, Hai', Hai, Hah', Hah, Hc', Hc, Hn', Hn.
  repeat split; try done.
Qed.

Lemma windows_discover_app_inv exe_path w a w' :
  WindowsDiscoverer._discover_app exe_path w = (Ok (Some a), w') →
  category a = lit "other" ∧
  (is_ai_app a, is_ai_host a) = is_ai_related (name a) [].
Proof.
  unfold WindowsDiscoverer._discover_app. intros Hrun.
  destruct (is_ai_related (path_stem exe_path) []) as [is_ai is_host] eqn:Hrel.
  destruct (negb is_ai && negb is_host); [by apply mret_inv in Hrun as [? _]|].
  apply bind_inv in Hrun as (app & w1 & Hnew & Hrun).
  apply mret_inv in Hrun as [[= <-] _].
  apply new_app_inv in Hnew as (_ & Hn & Hc & _ & _ & Hai & Hah).
  by rewrite Hc, Hn, Hai, Hah.
Qed.

Lemma linux_parse_desktop_file_inv file w a w' :
  LinuxDiscoverer._parse_desktop_file file w = (Ok (Some a), w') →
  category a = lit "other" ∧
  (is_ai_app a, is_ai_host a) = is_ai_related (name a) [].
Proof.
  unfold LinuxDiscoverer._parse_desktop_file. intros Hrun.
  apply bind_inv in Hrun as (content & w1 & _ & Hrun).
  destruct content as [content|]; [|by apply mret_inv in Hrun as [? _]].
  apply bind_inv in Hrun as ([nm ex] & w2 & _ & Hrun).
  destruct nm as [[|c nm]|]; try by apply mret_inv in Hrun as [? _].
  destruct (is_ai_related (c :: nm) []) as [is_ai is_host] eqn:Hrel.
  apply bind_inv in Hrun as (app & w3 & Hnew & Hrun).
  apply mret_inv in Hrun as [[= <-] _].
  apply new_app_inv in Hnew as (_ & Hn & Hc & _ & _ & Hai & Hah).
  by rewrite Hc, Hn, Hai, Hah.
Qed.

End RecordFacts.

(** ** Categories of AI hosts *)

Lemma exec_lines_filled_vscode : exec_lines_filled vscode_entry.
Proof. unfold exec_lines_filled. vm_compute. repeat constructor; discriminate. Qed.

Section CategoryFacts.
Context {host : Host}.

Lemma vscode_is_host :
  lower_ok lower → is_ai_related (lit "Visual Studio Code") [] = (false, true).
Proof.
  intros Hlow. unfold is_ai_related.
  rewrite (lower_ok_ascii lower _ Hlow) by (vm_compute; repeat constructor).
  reflexivity.
Qed.

(** C5, amended: a record of the macOS discoverer that is an AI host and not
    an AI application has category [dev_tools]; every record of the Windows
    and of the Linux discoverer has category [other], AI hosts included; a
    desktop entry with [Name=Visual Studio Code] yields an AI host of
    category [other]. *)
Theorem host_category_by_platform :
  lower_ok lower →
  (∀ self app_path w a w',
     MacOSDiscoverer._discover_app self app_path w = (Ok (Some a), w') →
     is_ai_app a = false → is_ai_host a = true →
     category a = lit "dev_tools") ∧
  (∀ exe_path w a w',
     WindowsDiscoverer._discover_app exe_path w = (Ok (Some a), w') →
     category a = lit "other") ∧
  (∀ file w a w',
     LinuxDiscoverer._parse_desktop_file file w = (Ok (Some a), w') →
     category a = lit "other") ∧
  (∀ file w data,
     fs w !! file = Some (File data) → decode_text data = Some vscode_entry →
     ∃ a w', LinuxDiscoverer._parse_desktop_file file w = (Ok (Some a), w') ∧
             name a = lit "Visual Studio Code" ∧
             is_ai_app a = false ∧ is_ai_host a = true ∧
             category a = lit "other").
Proof.
  intros Hlow. repeat split.
  - intros self app_path w a w' Hrun Hai Hah.
    apply macos_discover_app_inv in Hrun as (_ & _ & _ & _ & _ & _ & _ & _ & Hcat).
    by rewrite Hcat, Hai, Hah.
  - intros exe_path w a w' Hrun. by apply windows_discover_app_inv in Hrun as [? _].
  - intros file w a w' Hrun. by apply linux_parse_desktop_file_inv in Hrun as [? _].
  - intros file w data Hfile Hdecode.
    pose proof (parse_desktop_file_spec file w data vscode_entry Hfile Hdecode
                  exec_lines_filled_vscode) as Hspec.
    change (parsed_name vscode_entry) with (Some (lit "Visual Studio Code")) in Hspec.
    destruct Hspec as (a & w' & Hrun & Hname & _ & Hcat & Hrel).
    change ((is_ai_app a, is_ai_host a)
            = is_ai_related (lit "Visual Studio Code") []) in Hrel.
    rewrite (vscode_is_host Hlow) in Hrel. injection Hrel as Hai Hah.
    by exists a, w'.
Qed.

End CategoryFacts.

Lemma host_category_by_platform_witness :
  ∃ a w',
    LinuxDiscoverer._parse_desktop_file (host := linux_host) desktop_file
      (desktop_world vscode_entry) = (Ok (Some a), w') ∧
    name a = lit "Visual Studio Code" ∧
    is_ai_app a = false ∧ is_ai_host a = true ∧
    category a = lit "other".
Proof.
  destruct (host_category_by_platform (host := linux_host) ascii_lower_ok)
    as (_ & _ & _ & Hvscode).
  exact (Hvscode desktop_file (desktop_world vscode_entry) vscode_entry
           eq_refl eq_refl).
Defined.

(** The run of the parser on the Visual Studio Code entry. *)
Lemma vscode_entry_run :
  ∃ a w',
    LinuxDiscoverer._parse_desktop_file (host := linux_host) desktop_file
      (desktop_world vscode_entry) = (Ok (Some a), w') ∧
    is_ai_app a = false ∧ is_ai_host a = true ∧ category a = lit "other".
Proof. eexists _, _. split; [vm_compute; reflexivity|]. by vm_compute. Qed.

(** C5, as stated, fails on Linux: the Visual Studio Code entry is an AI
    host, and its category is not [dev_tools]. *)
Lemma linux_host_app_not_dev_tools :
  ¬ (∀ content a w',
       LinuxDiscoverer._parse_desktop_file (host := linux_host) desktop_file
         (desktop_world content) = (Ok (Some a), w') →
       is_ai_app a = false → is_ai_host a = true →
       category a = lit "dev_tools").
Proof.
  intros Hdev.
  destruct vscode_entry_run as (a & w' & Hrun & Hai & Hah & Hcat).
  specialize (Hdev vscode_entry a w' Hrun Hai Hah).
  rewrite Hcat in Hdev. vm_compute in Hdev. discriminate.
Qed.

(** ** Sorting *)

Lemma str_lt_asym (a b : str) : str_lt a b = true → str_lt b a = false.
Proof.
  revert b. induction a as [|x a IH]; intros [|y b]; simpl; try done.
  rewrite orb_true_iff, andb_true_iff, orb_false_iff, andb_false_iff.
  rewrite !N.ltb_lt, !N.ltb_ge, N.eqb_eq, N.eqb_neq.
  intros [Hlt | [-> Hrec]]; [split; [lia | left; lia]|].
  split; [lia|]. right. by apply IH.
Qed.

Lemma str_le_trans (a b c : str) :
  str_lt b a = false → str_lt c b = false → str_lt c a = false.
Proof.
  revert b c. induction a as [|x a IH]; intros [|y b] [|z c]; simpl; try done.
  rewrite !orb_false_iff, !andb_false_iff.
  rewrite !N.ltb_ge, !N.eqb_neq.
  intros [Hyx Hba] [Hzy Hcb]. split; [lia|].
  destruct (N.eq_dec z x) as [->|Hzx]; [|by left].
  assert (y = x) as -> by lia. right.
  destruct Hba as [?|Hba]; [done|]. destruct Hcb as [?|Hcb]; [done|].
  by apply (IH b c).
Qed.

Lemma key_lt_asym (k1 k2 : bool * bool * str) :
  key_lt k1 k2 = true → key_lt k2 k1 = false.
Proof.
  destruct k1 as [[a1 b1] s1], k2 as [[a2 b2] s2].
  destruct a1, b1, a2, b2; simpl; try done; apply str_lt_asym.
Qed.

Lemma key_le_trans (k1 k2 k3 : bool * bool * str) :
  key_lt k2 k1 = false → key_lt k3 k2 = false → key_lt k3 k1 = false.
Proof.
  destruct k1 as [[a1 b1] s1], k2 as [[a2 b2] s2], k3 as [[a3 b3] s3].
  destruct a1, b1, a2, b2, a3, b3; simpl; try done; apply str_le_trans.
Qed.

Section SortBy.
Context {A K : Type} (key : A → K) (lt : K → K → bool).
Hypothesis lt_asym : ∀ k1 k2, lt k1 k2 = true → lt k2 k1 = false.
Hypothesis le_trans : ∀ k1 k2 k3,
  lt k2 k1 = false → lt k3 k2 = false → lt k3 k1 = false.

Lemma insert_by_perm (x : A) (l : list A) : insert_by key lt x l ≡ₚ x :: l.
Proof.
  induction l as [|y l IH]; simpl; [done|].
  destruct (lt (key y) (key x)); [|done].
  rewrite IH. apply Permutation_swap.
Qed.

Lemma sort_by_perm (l : list A) : sort_by key lt l ≡ₚ l.
Proof.
  induction l as [|x l IH]; simpl; [done|].
  unfold sort_by in *. simpl. by rewrite insert_by_perm, IH.
Qed.

Lemma insert_by_sorted (x : A) (l : list A) :
  StronglySorted (λ a b, lt (key b) (key a) = false) l →
  StronglySorted (λ a b, lt (key b) (key a) = false) (insert_by key lt x l).
Proof.
  induction 1 as [|y l Hl IH Hy]; simpl.
  - repeat constructor.
  - destruct (lt (key y) (key x)) eqn:Hyx.
    + constructor; [done|]. rewrite insert_by_perm.
      constructor; [|done]. by apply lt_asym.
    + constructor; [by constructor|].
      constructor; [done|].
      eapply Forall_impl; [exact Hy|]. intros z Hz.
      by apply (le_trans _ (key y)).
Qed.

Lemma sort_by_sorted (l : list A) :
  StronglySorted (λ a b, lt (key b) (key a) = false) (sort_by key lt l).
Proof.
  induction l as [|x l IH]; [constructor|]. by apply insert_by_sorted.
Qed.

End SortBy.

(** ** The ordered registry *)

Section RegistryFacts.
Context {host : Host}.

Lemma is_ai_related_exclusive (n b : str) ai hst :
  (ai, hst) = is_ai_related n b → ai && hst = false.
Proof. unfold is_ai_related. repeat case_match; by intros [= -> ->]. Qed.

(** A property of the accumulator kept by the visit is kept by the whole
    traversal of the macOS search paths. *)
Lemma walk_bundles_inv {A} (P : A → Prop) (visit : str → A → M A) :
  (∀ p acc w acc' w', P acc → visit p acc w = (Ok acc', w') → P acc') →
  ∀ acc w r w', P acc → MacOSDiscoverer.walk_bundles visit acc w = (Ok r, w') → P r.
Proof.
  intros Hvisit. unfold MacOSDiscoverer.walk_bundles. apply for_each_inv.
  intros search_path acc w acc' w' Hacc Hrun.
  apply bind_inv in Hrun as (present & w1 & _ & Hrun).
  destruct present; simpl in Hrun; [|by apply mret_inv in Hrun as [<- _]].
  apply bind_inv in Hrun as (files & w2 & _ & Hrun).
  apply bind_inv in Hrun as (acc1 & w3 & Hdirect & Hrun).
  apply bind_inv in Hrun as (files' & w4 & _ & Hrun).
  apply (for_each_inv P _ _ Hvisit) in Hdirect; [|done].
  revert Hrun. apply for_each_inv; [|done].
  intros subdir acc2 w5 acc3 w6 Hacc2 Hrun.
  apply bind_inv in Hrun as (directory & w7 & _ & Hrun).
  destruct (directory && _); [|by apply mret_inv in Hrun as [<- _]].
  apply bind_inv in Hrun as (files'' & w8 & _ & Hrun).
  revert Hrun. by apply for_each_inv.
Qed.

Lemma keep_new_exclusive app acc :
  (∀ a, app = Some a → exclusive a) →
  Forall exclusive acc.1 → Forall exclusive (MacOSDiscoverer.keep_new app acc).1.
Proof.
  intros Happ Hacc. destruct acc as [apps seen]. unfold MacOSDiscoverer.keep_new.
  repeat case_match; try done. simpl. apply Forall_app. split; [done|].
  constructor; [by apply Happ | constructor].
Qed.

Lemma macos_discover_all_exclusive self w apps w' :
  MacOSDiscoverer.discover_all self w = (Ok apps, w') → Forall exclusive apps.
Proof.
  unfold MacOSDiscoverer.discover_all. intros Hrun.
  apply bind_inv in Hrun as (found & w1 & Hwalk & Hrun).
  apply mret_inv in Hrun as [<- _].
  revert Hwalk. apply (walk_bundles_inv (λ acc, Forall exclusive acc.1)); [|constructor].
  intros p acc w2 acc' w3 Hacc Hvisit.
  apply bind_inv in Hvisit as (app & w4 & Happ & Hvisit).
  apply mret_inv in Hvisit as [<- _].
  apply keep_new_exclusive; [|done].
  intros a ->. apply macos_discover_app_inv in Happ
    as (sig & b & _ & _ & _ & _ & _ & Hrel & _).
  by apply is_ai_related_exclusive in Hrel.
Qed.

Lemma windows_discover_all_exclusive w apps w' :
  WindowsDiscoverer.discover_all w = (Ok apps, w') → Forall exclusive apps.
Proof.
  unfold WindowsDiscoverer.discover_all.
  apply (for_each_inv (Forall exclusive)); [|constructor].
  intros search_path acc w1 acc' w2 Hacc Hrun.
  apply bind_inv in Hrun as (present & w3 & _ & Hrun).
  destruct present; simpl in Hrun; [|by apply mret_inv in Hrun as [<- _]].
  apply bind_inv in Hrun as (files & w4 & _ & Hrun).
  revert Hrun. apply (for_each_inv (Forall exclusive)); [|done].
  intros exe_path acc1 w5 acc2 w6 Hacc1 Hrun.
  match type of Hrun with
  | context [if ?c then _ else _] => destruct c
  end; [by apply mret_inv in Hrun as [<- _]|].
  apply bind_inv in Hrun as (app & w7 & Happ & Hrun).
  destruct app as [a|]; apply mret_inv in Hrun as [<- _]; [|done].
  apply Forall_app. split; [done|]. constructor; [|constructor].
  apply windows_discover_app_inv in Happ as [_ Hrel].
  by apply is_ai_related_exclusive in Hrel.
Qed.

Lemma linux_discover_all_exclusive w apps w' :
  LinuxDiscoverer.discover_all w = (Ok apps, w') → Forall exclusive apps.
Proof.
  unfold LinuxDiscoverer.discover_all.
  apply (for_each_inv (Forall exclusive)); [|constructor].
  intros desktop_dir acc w1 acc' w2 Hacc Hrun.
  apply bind_inv in Hrun as (present & w3 & _ & Hrun).
  destruct present; simpl in Hrun; [|by apply mret_inv in Hrun as [<- _]].
  apply bind_inv in Hrun as (files & w4 & _ & Hrun).
  revert Hrun. apply (for_each_inv (Forall exclusive)); [|done].
  intros file acc1 w5 acc2 w6 Hacc1 Hrun.
  apply bind_inv in Hrun as (app & w7 & Happ & Hrun).
  destruct app as [a|]; apply mret_inv in Hrun as [<- _]; [|done].
  apply Forall_app. split; [done|]. constructor; [|constructor].
  apply linux_parse_desktop_file_inv in Happ as [_ Hrel].
  by apply is_ai_related_exclusive in Hrel.
Qed.

(** On records with at most one flag, the comparison of sort keys is the
    order of the registry. *)
Lemma key_order_is_registry_order (a b : DiscoveredApp) :
  exclusive a → exclusive b →
  key_lt (sort_key b) (sort_key a) = false → registry_le a b.
Proof.
  unfold exclusive, registry_le, tier, sort_key, str_le.
  destruct (is_ai_app a), (is_ai_host a), (is_ai_app b), (is_ai_host b);
    simpl; try done; intros _ _ Hlt; auto with lia.
Qed.

Lemma sorted_registry (l : list DiscoveredApp) :
  Forall exclusive l →
  StronglySorted (λ a b, key_lt (sort_key b) (sort_key a) = false) l →
  StronglySorted registry_le l.
Proof.
  intros Hex Hsorted. induction Hsorted as [|a l Hl IH Ha]; [constructor|].
  apply Forall_cons in Hex as [Hexa Hexl].
  constructor; [by apply IH|].
  apply Forall_forall. intros b Hb.
  apply key_order_is_registry_order; [done | |].
  - by apply (proj1 (Forall_forall _ _) Hexl).
  - by apply (proj1 (Forall_forall _ _) Ha).
Qed.

(** What [discover_apps] does, in terms of the platform's discoverer. *)
Lemma discover_apps_unfold (ai_only icons : bool) (dir : option str) :
  discover_apps ai_only icons dir =
  match platform_discoverer {| extract_icons := icons; icons_dir := dir |} with
  | Some run =>
      apps ← run; mret (sort_by sort_key key_lt (selected ai_only apps))
  | None => print_stderr (UnsupportedPlatform system);; mret []
  end.
Proof.
  unfold discover_apps, platform_discoverer, selected.
  repeat case_bool_decide; reflexivity.
Qed.

Lemma platform_discoverer_exclusive self run w found w' :
  platform_discoverer self = Some run →
  run w = (Ok found, w') → Forall exclusive found.
Proof.
  unfold platform_discoverer.
  repeat case_bool_decide; intros [= <-];
    eauto using macos_discover_all_exclusive, windows_discover_all_exclusive,
                linux_discover_all_exclusive.
Qed.

Lemma selected_exclusive ai_only (found : list DiscoveredApp) :
  Forall exclusive found → Forall exclusive (selected ai_only found).
Proof.
  intros Hfound. destruct ai_only; [|done]. simpl.
  apply Forall_forall. intros a Ha. apply list_elem_of_filter in Ha as [_ Ha].
  by apply (proj1 (Forall_forall _ _) Hfound).
Qed.

(** C6: the list [discover_apps] returns is ordered by tier -- AI
    applications, then AI hosts, then the others -- and within a tier by
    lower-cased name, and it holds exactly the records the platform's
    discoverer found (those of them that are AI applications or hosts when
    only these are asked for), each as often as it was found; on a platform
    without a discoverer it is empty.  When the discoverer finds three
    records in the order z (neither), a (AI application), m (AI host),
    [discover_apps] returns a, m, z, whatever their names; and the sort on
    the records named Z, A, M with these flags gives A, M, Z. *)
Theorem discover_apps_ordered :
  (∀ ai_only icons dir w apps w',
     discover_apps ai_only icons dir w = (Ok apps, w') →
     StronglySorted registry_le apps ∧
     match platform_discoverer {| extract_icons := icons; icons_dir := dir |} with
     | Some run =>
         ∃ found, run w = (Ok found, w') ∧ apps ≡ₚ selected ai_only found
     | None => apps = []
     end) ∧
  (∀ icons dir run w w' z a m,
     platform_discoverer {| extract_icons := icons; icons_dir := dir |} = Some run →
     run w = (Ok [z; a; m], w') →
     tier z = 2%nat → tier a = 0%nat → tier m = 1%nat →
     discover_apps false icons dir w = (Ok [a; m; z], w')) ∧
  sort_by sort_key key_lt
    [ sample_app (lit "Z") false false;
      sample_app (lit "A") true false;
      sample_app (lit "M") false true ]
  = [ sample_app (lit "A") true false;
      sample_app (lit "M") false true;
      sample_app (lit "Z") false false ].
Proof.
  split; [|split; [|reflexivity]].
  - intros ai_only icons dir w apps w'. rewrite discover_apps_unfold.
    destruct (platform_discoverer _) as [run|] eqn:Hplatform; intros Hrun.
    + apply bind_inv in Hrun as (found & w1 & Hfound & Hsort).
      apply mret_inv in Hsort as [<- <-]. split.
      * apply sorted_registry.
        -- rewrite sort_by_perm. apply selected_exclusive.
           by apply (platform_discoverer_exclusive _ _ _ _ _ Hplatform Hfound).
        -- apply sort_by_sorted; [apply key_lt_asym | apply key_le_trans].
      * exists found. split; [done | apply sort_by_perm].
    + apply bind_inv in Hrun as (printed & w1 & _ & Hrun).
      apply mret_inv in Hrun as [<- _]. split; [constructor | done].
  - intros icons dir run w w' z a m Hplatform Hrun Hz Ha Hm.
    rewrite discover_apps_unfold, Hplatform, (bind_ok _ _ _ _ _ Hrun).
    unfold mret, M_ret, selected. do 2 f_equal.
    unfold tier in Hz, Ha, Hm.
    assert (is_ai_app z = false ∧ is_ai_host z = false) as [Hz1 Hz2]
      by (by destruct (is_ai_app z), (is_ai_host z)).
    assert (is_ai_app a = true) as Ha1
      by (by destruct (is_ai_app a), (is_ai_host a)).
    assert (is_ai_app m = false ∧ is_ai_host m = true) as [Hm1 Hm2]
      by (by destruct (is_ai_app m), (is_ai_host m)).
    unfold sort_by, sort_key, key_lt. simpl.
    repeat progress (rewrite ?Hz1, ?Hz2, ?Ha1, ?Hm1, ?Hm2; simpl).
    by destruct (is_ai_host a).
Qed.

End RegistryFacts.

(** ** Deduplication in the macOS discoverer *)

Lemma alike_refl {A} (r : result A * World) : alike eq r r.
Proof. by destruct r as [[a|e] w]. Qed.

Lemma bind_alike {A A' B B'} (R : A → A' → Prop) (S : B → B' → Prop)
    (m : M A) (m' : M A') (k : A → M B) (k' : A' → M B') w :
  alike R (m w) (m' w) →
  (∀ a a' w1, R a a' → alike S (k a w1) (k' a' w1)) →
  alike S ((m ≫= k) w) ((m' ≫= k') w).
Proof.
  unfold mbind, M_bind, alike at 1. intros Hm Hk.
  destruct (m w) as [[a|e] w1], (m' w) as [[a'|e'] w1']; try done.
  destruct Hm as [HR <-]. by apply Hk.
Qed.

Lemma for_each_alike {X A A'} (R : A → A' → Prop) (l : list X)
    (body : X → A → M A) (body' : X → A' → M A') :
  (∀ x a a' w, R a a' → alike R (body x a w) (body' x a' w)) →
  ∀ a a' w, R a a' → alike R (for_each l body a w) (for_each l body' a' w).
Proof.
  intros Hbody. induction l as [|x l IH]; intros a a' w HR; [done|].
  rewrite !for_each_cons. eapply bind_alike; [by apply Hbody|].
  intros b b' w1 HR'. by apply IH.
Qed.

Section DedupFacts.
Context {host : Host}.

(** Two traversals whose visits end alike end alike. *)
Lemma walk_bundles_alike {A A'} (R : A → A' → Prop)
    (visit : str → A → M A) (visit' : str → A' → M A') :
  (∀ p a a' w, R a a' → alike R (visit p a w) (visit' p a' w)) →
  ∀ a a' w, R a a' →
    alike R (MacOSDiscoverer.walk_bundles visit a w)
            (MacOSDiscoverer.walk_bundles visit' a' w).
Proof.
  intros Hvisit. unfold MacOSDiscoverer.walk_bundles. apply for_each_alike.
  intros search_path a a' w HR.
  eapply bind_alike; [apply alike_refl|]. intros present ? w1 <-.
  destruct present; simpl; [|done].
  eapply bind_alike; [apply alike_refl|]. intros files ? w2 <-.
  eapply bind_alike; [by apply for_each_alike|]. intros b b' w3 HR'.
  eapply bind_alike; [apply alike_refl|]. intros files' ? w4 <-.
  apply for_each_alike; [|done]. intros subdir c c' w5 HR''.
  eapply bind_alike; [apply alike_refl|]. intros directory ? w6 <-.
  destruct (directory && _); [|done].
  eapply bind_alike; [apply alike_refl|]. intros files'' ? w7 <-.
  by apply for_each_alike.
Qed.

(** [discover_all] returns the records kept out of the scan. *)
Lemma discover_all_kept self w apps w' :
  MacOSDiscoverer.discover_all self w = (Ok apps, w') →
  ∃ found, scan_order self w = (Ok found, w') ∧ apps = (kept found).1.
Proof.
  unfold MacOSDiscoverer.discover_all, scan_order. intros Hrun.
  apply bind_inv in Hrun as (acc & w1 & Hwalk & Hrun).
  apply mret_inv in Hrun as [<- <-].
  pose proof (walk_bundles_alike (λ acc found, acc = kept found)
    (λ app_path acc,
       app ← MacOSDiscoverer._discover_app self app_path;
       mret (MacOSDiscoverer.keep_new app acc))
    (λ app_path found,
       app ← MacOSDiscoverer._discover_app self app_path; mret (found ++ [app])))
    as Hsim.
  specialize (Hsim ltac:(
    intros p a found w0 ->;
    eapply bind_alike; [apply alike_refl|];
    intros app ? w2 <-; split; [|done];
    unfold kept; by rewrite fold_left_app) ([], ∅) [] w eq_refl).
  rewrite Hwalk in Hsim. unfold alike in Hsim.
  destruct (MacOSDiscoverer.walk_bundles _ [] w) as [[found|e] w2]; [|done].
  destruct Hsim as [-> <-]. by exists found.
Qed.

End DedupFacts.

Lemma keep_new_Some (a : DiscoveredApp) (apps : list DiscoveredApp)
    (seen : gset str) :
  MacOSDiscoverer.keep_new (Some a) (apps, seen) =
  match bundle_key a with
  | Some b => if bool_decide (b ∈ seen) then (apps, seen)
              else (apps ++ [a], seen ∪ {[ b ]})
  | None => (apps, seen)
  end.
Proof.
  unfold MacOSDiscoverer.keep_new, bundle_key.
  destruct (macos a) as [signature|]; [|done].
  destruct (bundle_id signature) as [b|]; [|done].
  destruct (nonempty b); [|done]. simpl. by destruct (bool_decide (b ∈ seen)).
Qed.

Lemma kept_ok_nil : kept_ok [] [] ∅.
Proof.
  split.
  - intros b. split; [set_solver|]. intros (a & Ha & _). by inversion Ha.
  - constructor.
  - constructor.
  - intros a Ha. by inversion Ha.
  - intros a Ha. by inversion Ha.
Qed.

Lemma kept_ok_skip found apps seen (o : option DiscoveredApp) :
  kept_ok found apps seen →
  (∀ a', o = Some a' → is_Some (bundle_key a') →
         ∃ a, a ∈ apps ∧ bundle_key a = bundle_key a') →
  kept_ok (found ++ [o]) apps seen.
Proof.
  intros [Hseen Hset Hdistinct Hfirst Hall] Ho. split; try done.
  - intros a Ha. destruct (Hfirst a Ha) as (l1 & l2 & -> & Hl1).
    exists l1, (l2 ++ [o]). split; [|done]. by rewrite <- app_assoc.
  - intros a' Ha' Hkey. apply elem_of_app in Ha' as [Ha'|Ha'].
    + by apply Hall.
    + apply list_elem_of_singleton in Ha'. by apply Ho.
Qed.

Lemma kept_ok_new found apps seen (a : DiscoveredApp) b :
  kept_ok found apps seen → bundle_key a = Some b → b ∉ seen →
  kept_ok (found ++ [Some a]) (apps ++ [a]) (seen ∪ {[ b ]}).
Proof.
  intros [Hseen Hset Hdistinct Hfirst Hall] Hkey Hnew.
  assert (Hfresh : ∀ a0, a0 ∈ apps → bundle_key a0 ≠ Some b).
  { intros a0 Ha0 Hk. apply Hnew, Hseen. eauto. }
  split.
  - intros b'. rewrite elem_of_union, elem_of_singleton, Hseen. split.
    + intros [(a0 & Ha0 & Hk) | ->].
      * exists a0. split; [apply elem_of_app; by left | done].
      * exists a. split; [apply elem_of_app; right; by left | done].
    + intros (a0 & Ha0 & Hk). apply elem_of_app in Ha0 as [Ha0|Ha0]; [eauto|].
      apply list_elem_of_singleton in Ha0 as ->. right. congruence.
  - apply Forall_app. split; [done|]. constructor; [by rewrite Hkey | constructor].
  - rewrite fmap_app. apply NoDup_app. split; [done|]. split.
    + intros k Hk Hk'. apply list_elem_of_singleton in Hk' as ->.
      apply list_elem_of_fmap in Hk as (a0 & Hk0 & Ha0).
      apply (Hfresh a0 Ha0). congruence.
    + apply NoDup_singleton.
  - intros a0 Ha0. apply elem_of_app in Ha0 as [Ha0|Ha0].
    + destruct (Hfirst a0 Ha0) as (l1 & l2 & -> & Hl1).
      exists l1, (l2 ++ [Some a]). split; [|done]. by rewrite <- app_assoc.
    + apply list_elem_of_singleton in Ha0 as ->.
      exists found, []. split; [done|]. intros a' Ha' Hk.
      destruct (Hall a' Ha') as (a0 & Ha0 & Hk0); [rewrite Hk, Hkey; eauto|].
      apply (Hfresh a0 Ha0). congruence.
  - intros a' Ha' Hk. apply elem_of_app in Ha' as [Ha'|Ha'].
    + destruct (Hall a' Ha' Hk) as (a0 & Ha0 & Hk0).
      exists a0. split; [apply elem_of_app; by left | done].
    + apply list_elem_of_singleton in Ha' as [= ->].
      exists a. split; [apply elem_of_app; right; by left | done].
Qed.

Lemma kept_spec (found : list (option DiscoveredApp)) :
  kept_ok found (kept found).1 (kept found).2.
Proof.
  induction found as [|o found IH] using rev_ind; [apply kept_ok_nil|].
  unfold kept in *. rewrite fold_left_app. simpl.
  destruct (fold_left _ found ([], ∅)) as [apps seen]. simpl in IH.
  destruct o as [a|]; [|by apply kept_ok_skip].
  rewrite keep_new_Some. destruct (bundle_key a) as [b|] eqn:Hkey.
  - case_bool_decide as Hseen.
    + apply kept_ok_skip; [done|]. intros a' [= <-] _.
      rewrite Hkey. by apply (seen_keys _ _ _ IH).
    + by apply kept_ok_new.
  - apply kept_ok_skip; [done|]. intros a' [= <-] [? Hk]. congruence.
Qed.

Section DiscoverAllFacts.
Context {host : Host}.

(** C7: the list [MacOSDiscoverer.discover_all] returns has pairwise
    distinct bundle identifiers; each of its records is the first one,
    in scan order, that [_discover_app] returned with that identifier (so its
    path is that of the first bundle met); and every identifier met in the
    scan is in the list. *)
Theorem macos_discover_all_dedup self w apps w' :
  MacOSDiscoverer.discover_all self w = (Ok apps, w') →
  Forall (λ a, is_Some (bundle_key a)) apps ∧
  NoDup (bundle_key <$> apps) ∧
  ∃ found,
    scan_order self w = (Ok found, w') ∧
    (∀ a, a ∈ apps →
       ∃ l1 l2, found = l1 ++ Some a :: l2 ∧
                ∀ a', Some a' ∈ l1 → bundle_key a' ≠ bundle_key a) ∧
    (∀ a', Some a' ∈ found →
       ∃ a, a ∈ apps ∧ bundle_key a = bundle_key a').
Proof.
  intros Hrun.
  destruct (discover_all_kept self w apps w' Hrun) as (found & Hscan & ->).
  destruct (kept_spec found) as [_ Hset Hdistinct Hfirst Hall].
  split; [done|]. split; [done|]. exists found. split; [done|]. split; [done|].
  assert (Hkeys : ∀ a', Some a' ∈ found → is_Some (bundle_key a')).
  { revert Hscan. unfold scan_order.
    apply (walk_bundles_inv
      (λ found, ∀ a', Some a' ∈ found → is_Some (bundle_key a'))).
    - intros p acc w1 acc' w2 Hacc Hvisit a' Ha'.
      apply bind_inv in Hvisit as (app & w3 & Happ & Hvisit).
      apply mret_inv in Hvisit as [<- _].
      apply elem_of_app in Ha' as [Ha'|Ha']; [by apply Hacc|].
      apply list_elem_of_singleton in Ha' as <-.
      apply macos_discover_app_inv in Happ as (sig & b & Hm & Hb & Hne & _).
      unfold bundle_key. rewrite Hm, Hb. destruct b; [done|]. by eexists.
    - intros a' Ha'. by inversion Ha'. }
  intros a' Ha'. apply Hall; [done | by apply Hkeys].
Qed.

End DiscoverAllFacts.

(** On the machine with the ChatGPT bundle installed twice, the scan meets
    both bundles and one record is returned, that of the bundle in
    [/Applications]. *)
Example discover_all_chatgpt_twice :
  ∃ (apps : list DiscoveredApp) (found : list (option DiscoveredApp)) w',
    MacOSDiscoverer.discover_all (host := mac_host)
      {| extract_icons := false; icons_dir := None |} mac_world = (Ok apps, w') ∧
    scan_order (host := mac_host)
      {| extract_icons := false; icons_dir := None |} mac_world = (Ok found, w') ∧
    map (λ a, (name a, path a, bundle_key a)) apps
    = [ (lit "ChatGPT", lit "/Applications/ChatGPT.app",
         Some (lit "com.openai.chat")) ] ∧
    map (option_map path) found
    = [ Some (lit "/Applications/ChatGPT.app");
        Some (lit "/Applications/Utilities/ChatGPT copy.app") ].
Proof.
  eexists _, _, _. split; [vm_compute; reflexivity|].
  split; [vm_compute; reflexivity|]. split; vm_compute; reflexivity.
Qed.

Lemma macos_discover_all_dedup_witness :
  ∃ (apps : list DiscoveredApp) w',
    MacOSDiscoverer.discover_all (host := mac_host)
      {| extract_icons := false; icons_dir := None |} mac_world = (Ok apps, w') ∧
    map path apps = [lit "/Applications/ChatGPT.app"] ∧
    NoDup (bundle_key <$> apps).
Proof.
  eexists _, _. split; [vm_compute; reflexivity|].
  split; [vm_compute; reflexivity|].
  refine (proj1 (proj2 (macos_discover_all_dedup (host := mac_host)
            {| extract_icons := false; icons_dir := None |} mac_world _ _ _))).
  vm_compute. reflexivity.
Defined.

(** On the machine with the entries Zoom, Aider and MacVim the discoverer
    finds them in this order, and the registry lists Aider, MacVim, Zoom. *)
Lemma discover_apps_ordered_witness :
  ∃ (found apps : list DiscoveredApp) w',
    LinuxDiscoverer.discover_all (host := office_host) office_world
      = (Ok found, w') ∧
    map name found = [lit "Zoom"; lit "Aider"; lit "MacVim"] ∧
    discover_apps (host := office_host) false false None office_world
      = (Ok apps, w') ∧
    map name apps = [lit "Aider"; lit "MacVim"; lit "Zoom"] ∧
    StronglySorted (registry_le (host := office_host)) apps.
Proof.
  assert (Hfound : ∃ z a m w',
    LinuxDiscoverer.discover_all (host := office_host) office_world
      = (Ok [z; a; m], w') ∧
    map name [z; a; m] = [lit "Zoom"; lit "Aider"; lit "MacVim"] ∧
    tier z = 2%nat ∧ tier a = 0%nat ∧ tier m = 1%nat).
  { eexists _, _, _, _. split; [vm_compute; reflexivity|].
    repeat split; vm_compute; reflexivity. }
  destruct Hfound as (z & a & m & w' & Hfound & Hnames & Hz & Ha & Hm).
  assert (Hplatform :
    platform_discoverer (host := office_host)
      {| extract_icons := false; icons_dir := None |}
    = Some (LinuxDiscoverer.discover_all (host := office_host))).
  { reflexivity. }
  pose proof (proj1 (proj2 (discover_apps_ordered (host := office_host)))
                false None _ office_world w' z a m Hplatform Hfound Hz Ha Hm)
    as Hrun.
  exists [z; a; m], [a; m; z], w'. split; [done|]. split; [done|].
  split; [done|]. split.
  - injection Hnames as Hz' Ha' Hm'. simpl. by rewrite Hz', Ha', Hm'.
  - exact (proj1 (proj1 (discover_apps_ordered (host := office_host))
                    false false None office_world _ _ Hrun)).
Defined.

(** ** When the macOS discovery ends normally

    On the file systems represented here, where every path that is looked
    at holds a file, a directory or nothing. *)

Lemma returns_mret {A} (a : A) : returns (mret a).
Proof. intros w. by exists a, w. Qed.

Lemma returns_bind {A B} (m : M A) (k : A → M B) :
  returns m → (∀ a, returns (k a)) → returns (m ≫= k).
Proof.
  intros Hm Hk w. destruct (Hm w) as (a & w1 & Hrun).
  rewrite (bind_ok _ _ _ _ _ Hrun). apply Hk.
Qed.

Lemma returns_try_except {A} (body : M A) (handler : exn → M A) :
  (∀ e, returns (handler e)) → returns (try_except body handler).
Proof.
  intros Hh w. unfold try_except.
  destruct (body w) as [[a|e] w1]; [by exists a, w1 | apply Hh].
Qed.

Lemma returns_for_each {A B} (l : list A) (body : A → B → M B) acc :
  (∀ x acc, returns (body x acc)) → returns (for_each l body acc).
Proof.
  intros Hbody. revert acc. induction l as [|x l IH]; intros acc.
  - apply returns_mret.
  - rewrite for_each_cons. by apply returns_bind.
Qed.

Lemma contains_split (s k : str) :
  contains s k = true → ∃ pre post, s = pre ++ k ++ post.
Proof.
  induction s as [|c s IH].
  - destruct k as [|a k]; [by exists [], [] | done].
  - change (contains (c :: s) k) with (startswith (c :: s) k || contains s k).
    intros Hs. apply orb_true_iff in Hs as [Hs|Hs].
    + apply startswith_split in Hs as [post Hs]. by exists [], post.
    + destruct (IH Hs) as (pre & post & ->). by exists (c :: pre), post.
Qed.

Lemma split_on_second (sep : N) (s : str) :
  sep ∈ s → is_Some (split_on sep s !! 1%nat).
Proof.
  induction s as [|c s IH]; intros Hin; [by inversion Hin|]. simpl.
  destruct (N.eqb_spec c sep) as [->|Hc].
  - destruct (split_on sep s) eqn:E; simpl; eauto.
    destruct s; simpl in E; [done|]. by repeat case_match.
  - apply elem_of_cons in Hin as [->|Hin]; [done|].
    destruct (IH Hin) as [piece Hpiece].
    destruct (split_on sep s) as [|p0 rest]; [done|]. simpl in *. eauto.
Qed.

Section ReturnFacts.
Context {host : Host}.

Lemma scan_team_id_returns (lines : list str) :
  returns (MacOSDiscoverer.scan_team_id lines).
Proof.
  induction lines as [|line lines IH]; simpl; [apply returns_mret|].
  destruct (contains line (lit "TeamIdentifier=")) eqn:Hline; [|done].
  apply contains_split in Hline as (pre & post & ->).
  destruct (split_on_second equals_sign (pre ++ lit "TeamIdentifier=" ++ post))
    as [field Hfield].
  { apply elem_of_app. right. apply elem_of_app. left.
    vm_compute. repeat (first [left | right]). }
  unfold item. rewrite Hfield. apply returns_bind; [apply returns_mret|].
  intros f. destruct (_ && _); [apply returns_mret | done].
Qed.

Lemma get_team_id_returns (app_path : str) :
  (∀ w p, ∃ completed, codesign w p = Completed completed) →
  returns (MacOSDiscoverer._get_team_id app_path).
Proof.
  intros Hsign. unfold MacOSDiscoverer._get_team_id. apply returns_bind.
  - intros w. destruct (Hsign w app_path) as [completed Hrun].
    exists completed, w. unfold MacOSDiscoverer.run_codesign. by rewrite Hrun.
  - intros completed. destruct (nonempty _);
      [apply scan_team_id_returns | apply returns_mret].
Qed.

Lemma extract_icon_returns (app_path : str) plist :
  returns (MacOSDiscoverer._extract_icon app_path plist).
Proof.
  unfold MacOSDiscoverer._extract_icon.
  destruct (negb _); [apply returns_mret|].
  apply returns_bind.
  - unfold MacOSDiscoverer.locate_icon.
    apply returns_bind; [intros w; by eexists _, _|].
    intros [|]; [apply returns_mret|].
    destruct (nonempty _); [|apply returns_mret].
    apply returns_bind; [intros w; by eexists _, _|].
    intros [|]; [apply returns_mret|].
    apply returns_bind; [intros w; by eexists _, _|].
    intros files. destruct (glob _ _ _); apply returns_mret.
  - intros [icon_path|]; [|apply returns_mret].
    apply returns_bind; [intros w; by eexists _, _|].
    intros [|]; simpl; [|apply returns_mret].
    unfold MacOSDiscoverer.convert_icon. apply returns_try_except.
    intros e. apply returns_bind; [intros w; by eexists _, _|].
    intros _. apply returns_mret.
Qed.

Lemma macos_discover_app_returns self (app_path : str) :
  (∀ w p, ∃ completed, codesign w p = Completed completed) →
  icons_dir self = None →
  returns (MacOSDiscoverer._discover_app self app_path).
Proof.
  intros Hsign Hdir. unfold MacOSDiscoverer._discover_app.
  apply returns_bind; [intros w; by eexists _, _|].
  intros [|]; simpl; [|apply returns_mret].
  apply returns_bind; [apply returns_try_except; intros e; apply returns_mret|].
  intros [plist|]; [|apply returns_mret].
  destruct (negb _); [apply returns_mret|].
  apply returns_bind; [by apply get_team_id_returns|].
  intros team. destruct (is_ai_related _ _) as [is_ai is_host].
  apply returns_bind; [intros w; by eexists _, _|].
  intros app. apply returns_bind; [|intros app'; apply returns_mret].
  unfold MacOSDiscoverer.attach_icon. destruct (extract_icons self); [|apply returns_mret].
  apply returns_bind; [apply extract_icon_returns|].
  intros [[|c data]|]; try apply returns_mret.
  rewrite Hdir. apply returns_mret.
Qed.

(** With [codesign] always running to its end and no icon directory to write
    to, [discover_all] returns a list. *)
Lemma macos_discover_all_returns self :
  (∀ w p, ∃ completed, codesign w p = Completed completed) →
  icons_dir self = None →
  returns (MacOSDiscoverer.discover_all self).
Proof.
  intros Hsign Hdir. unfold MacOSDiscoverer.discover_all.
  apply returns_bind; [|intros found; apply returns_mret].
  assert (Hvisit : ∀ p acc,
    returns (MacOSDiscoverer._discover_app self p ≫= λ app,
             mret (MacOSDiscoverer.keep_new app acc))).
  { intros p acc. apply returns_bind; [by apply macos_discover_app_returns|].
    intros app. apply returns_mret. }
  unfold MacOSDiscoverer.walk_bundles. apply returns_for_each.
  intros search_path acc.
  apply returns_bind; [intros w; by eexists _, _|].
  intros [|]; simpl; [|apply returns_mret].
  apply returns_bind; [intros w; by eexists _, _|]. intros files.
  apply returns_bind; [by apply returns_for_each|]. intros acc1.
  apply returns_bind; [intros w; by eexists _, _|]. intros files'.
  apply returns_for_each. intros subdir acc2.
  apply returns_bind; [intros w; by eexists _, _|]. intros directory.
  destruct (_ && _); [|apply returns_mret].
  apply returns_bind; [intros w; by eexists _, _|]. intros files''.
  by apply returns_for_each.
Qed.

End ReturnFacts.

(** * Further properties of the script *)

(** ** Identifiers, again *)

Lemma drop_while_id {A} (p : A → bool) (l : list A) :
  (∀ x, head l = Some x → p x = false) → drop_while p l = l.
Proof.
  destruct l as [|x l]; [done|]. simpl. intros Hx. by rewrite (Hx x eq_refl).
Qed.

Lemma strip_chars_id p (s : str) :
  (∀ x, head s = Some x → p x = false) →
  (∀ x, last s = Some x → p x = false) →
  strip_chars p s = s.
Proof.
  intros Hhead Hlast. unfold strip_chars.
  rewrite (drop_while_id p s Hhead).
  rewrite drop_while_id; [apply reverse_involutive|].
  intros x Hx. apply Hlast. by rewrite <- head_reverse.
Qed.

(** The substitution leaves a string alone when it is made of the characters
    of the class and of single hyphens. *)
Lemma sub_runs_id (s : str) :
  Forall (λ c, is_slug_or_hyphen c = true) s →
  no_double_hyphen s = true →
  sub_runs false s = s ∧ (head s ≠ Some hyphen → sub_runs true s = s).
Proof.
  induction 1 as [|c s Hc Hs IH]; intros Hdouble; [done|].
  assert (Hrest : no_double_hyphen s = true).
  { by apply (no_double_hyphen_app_r [c] s). }
  destruct (IH Hrest) as [IHfalse IHtrue].
  simpl. destruct (is_slug_char c) eqn:Hslug.
  - rewrite IHfalse. done.
  - unfold is_slug_or_hyphen in Hc. rewrite Hslug in Hc. simpl in Hc.
    apply N.eqb_eq in Hc as ->. split; [|by intros []].
    f_equal. apply IHtrue. intros Hhead.
    destruct s as [|d s]; [done|]. injection Hhead as ->.
    simpl in Hdouble. done.
Qed.

Lemma slug_or_hyphen_ascii_lower c :
  is_slug_or_hyphen c = true → is_ascii c = true ∧ ascii_lower_char c = c.
Proof.
  unfold is_slug_or_hyphen, is_slug_char, is_ascii, ascii_lower_char, hyphen.
  rewrite !orb_true_iff, !andb_true_iff, !N.leb_le, N.eqb_eq, N.ltb_lt.
  intros Hc. split; [lia|].
  destruct ((65 <=? c) && (c <=? 90)) eqn:E; [|done].
  apply andb_true_iff in E as [E1 E2]. apply N.leb_le in E1, E2. lia.
Qed.

Section AppIdMoreFacts.
Context {host : Host}.

(** The shape of every identifier, whatever the name. *)
Lemma generate_app_id_shape (name : str) :
  Forall (λ c, is_slug_or_hyphen c = true) (generate_app_id name) ∧
  (∀ x, head (generate_app_id name) = Some x → (x =? hyphen) = false) ∧
  (∀ x, last (generate_app_id name) = Some x → (x =? hyphen) = false) ∧
  no_double_hyphen (generate_app_id name) = true.
Proof.
  unfold generate_app_id.
  set (subbed := sub_runs false (lower name)).
  destruct (sub_runs_shape (lower name) false) as (Halpha & Hdouble & _).
  fold subbed in Halpha, Hdouble.
  destruct (strip_chars_infix (λ c, c =? hyphen) subbed) as (l1 & l2 & Hsplit).
  repeat split.
  - rewrite Hsplit in Halpha.
    apply Forall_app in Halpha as [_ Halpha]. by apply Forall_app in Halpha as [Halpha _].
  - intros x. apply (strip_chars_head (λ c, c =? hyphen)).
  - intros x. apply (strip_chars_last (λ c, c =? hyphen)).
  - rewrite Hsplit in Hdouble.
    by apply no_double_hyphen_app_r, no_double_hyphen_app_l in Hdouble.
Qed.

(** X1: [generate_app_id] is idempotent: an identifier is its own
    identifier. *)
Theorem generate_app_id_idempotent (name : str) :
  lower_ok lower →
  generate_app_id (generate_app_id name) = generate_app_id name.
Proof.
  intros Hlow.
  destruct (generate_app_id_shape name) as (Halpha & Hhead & Hlast & Hdouble).
  set (app_id := generate_app_id name) in *.
  unfold generate_app_id at 1.
  assert (Hlower : lower app_id = app_id).
  { rewrite (lower_ok_ascii lower app_id Hlow).
    - clear -Halpha. induction Halpha as [|c s Hc _ IH]; [done|].
      simpl. rewrite IH. by destruct (slug_or_hyphen_ascii_lower c Hc) as [_ ->].
    - eapply Forall_impl; [exact Halpha|].
      intros c Hc. by destruct (slug_or_hyphen_ascii_lower c Hc). }
  rewrite Hlower.
  destruct (sub_runs_id app_id Halpha Hdouble) as [-> _].
  by apply strip_chars_id.
Qed.

(** X2: on ASCII names the identifier does not see the case of letters: two
    names that are equal once lower-cased get the same identifier. *)
Theorem generate_app_id_ignores_case (name1 name2 : str) :
  lower_ok lower →
  Forall (λ c, is_ascii c = true) name1 →
  Forall (λ c, is_ascii c = true) name2 →
  map ascii_lower_char name1 = map ascii_lower_char name2 →
  generate_app_id name1 = generate_app_id name2.
Proof.
  intros Hlow H1 H2 Hsame. unfold generate_app_id.
  by rewrite (lower_ok_ascii lower name1 Hlow H1),
             (lower_ok_ascii lower name2 Hlow H2), Hsame.
Qed.

End AppIdMoreFacts.

Lemma generate_app_id_idempotent_witness :
  generate_app_id (host := linux_host)
    (generate_app_id (host := linux_host) (lit "  Visual Studio  Code (Insiders)!"))
  = lit "visual-studio-code-insiders".
Proof.
  rewrite (generate_app_id_idempotent (host := linux_host) _ ascii_lower_ok).
  reflexivity.
Defined.

Lemma generate_app_id_ignores_case_witness :
  generate_app_id (host := linux_host) (lit "ChatGPT")
  = generate_app_id (host := linux_host) (lit "chatgpt").
Proof.
  apply (generate_app_id_ignores_case (host := linux_host));
    [apply ascii_lower_ok | | | reflexivity];
    vm_compute; repeat constructor.
Defined.

(** ** Classification, again *)

Section ClassificationMoreFacts.
Context {host : Host}.

(** X3: the identifier of a bundle counts for the AI keywords only: an AI
    keyword in the lower-cased identifier makes an AI application whatever
    the name is, and an application is an AI host only if its lower-cased
    name contains a host keyword. *)
Theorem is_ai_related_bundle_id (name bundle : str) :
  (∀ keyword, keyword ∈ AI_APP_KEYWORDS → bundle ≠ [] →
     contains (lower bundle) keyword = true →
     is_ai_related name bundle = (true, false)) ∧
  ((is_ai_related name bundle).2 = true →
     any_in (lower name) AI_HOST_APPS = true).
Proof.
  unfold is_ai_related. split.
  - intros keyword Hin Hbundle Hc.
    destruct bundle as [|c bundle]; [done|]. simpl nonempty. cbv iota.
    rewrite (existsb_elem _ _ keyword Hin); [done|].
    rewrite Hc. apply orb_true_r.
  - unfold any_in. repeat case_match; simpl; congruence.
Qed.

End ClassificationMoreFacts.

Lemma is_ai_related_bundle_id_witness :
  is_ai_related (host := linux_host) (lit "Chat") (lit "com.OpenAI.chat")
  = (true, false).
Proof.
  destruct (is_ai_related_bundle_id (host := linux_host)
              (lit "Chat") (lit "com.OpenAI.chat")) as [Hbundle _].
  apply (Hbundle (lit "openai")); [|done|reflexivity].
  unfold AI_APP_KEYWORDS. simpl. repeat (first [left | right]).
Defined.

(** ** Team identifiers *)

Section TeamIdFacts.
Context {host : Host}.

Lemma scan_team_id_inv (lines : list str) w t w' :
  MacOSDiscoverer.scan_team_id lines w = (Ok (Some t), w') →
  w' = w ∧ ∃ line field,
    line ∈ lines ∧ contains line (lit "TeamIdentifier=") = true ∧
    t = strip field ∧ t ≠ [] ∧ t ≠ lit "not set".
Proof.
  induction lines as [|line lines IH]; simpl; intros Hrun.
  - by apply mret_inv in Hrun as [? _].
  - destruct (contains line (lit "TeamIdentifier=")) eqn:Hline.
    + apply bind_inv in Hrun as (field & w1 & Hfield & Hrun).
      assert (w1 = w) as ->.
      { unfold item in Hfield. destruct (_ !! _); [|done].
        by apply mret_inv in Hfield as [_ ->]. }
      destruct (nonempty (strip field)) eqn:Hne; simpl in Hrun.
      * case_bool_decide as Hset; simpl in Hrun.
        -- destruct (IH Hrun) as (-> & l & f & Hl & ?). split; [done|].
           exists l, f. split; [by right | done].
        -- apply mret_inv in Hrun as [[= <-] <-]. split; [done|].
           exists line, field. split; [by left|]. split; [done|].
           split; [done|]. split; [|done]. intros Hnil. by rewrite Hnil in Hne.
      * destruct (IH Hrun) as (-> & l & f & Hl & ?). split; [done|].
        exists l, f. split; [by right | done].
    + destruct (IH Hrun) as (-> & l & f & Hl & ?). split; [done|].
      exists l, f. split; [by right | done].
Qed.

(** X4: a team identifier returned by [_get_team_id] is never empty, never
    the text [not set], and has no white space at either end. *)
Theorem get_team_id_wellformed (app_path : str) w t w' :
  MacOSDiscoverer._get_team_id app_path w = (Ok (Some t), w') →
  t ≠ [] ∧ t ≠ lit "not set" ∧
  (∀ c, head t = Some c → is_space c = false) ∧
  (∀ c, last t = Some c → is_space c = false).
Proof.
  unfold MacOSDiscoverer._get_team_id. intros Hrun.
  apply bind_inv in Hrun as (completed & w1 & _ & Hrun).
  destruct (nonempty (stderr completed)); [|by apply mret_inv in Hrun as [? _]].
  apply scan_team_id_inv in Hrun as (_ & line & field & _ & _ & -> & Hne & Hset).
  split; [done|]. split; [done|]. split.
  - intros c. apply strip_chars_head.
  - intros c. apply strip_chars_last.
Qed.

Lemma scan_team_id_none (lines : list str) w :
  Forall (λ line, contains line (lit "TeamIdentifier=") = false) lines →
  MacOSDiscoverer.scan_team_id lines w = (Ok None, w).
Proof.
  induction 1 as [|line lines Hline _ IH]; simpl; [done|]. by rewrite Hline.
Qed.

(** X5: when [codesign] runs to its end and no line of its diagnostic output
    contains [TeamIdentifier=], the team identifier is [None], whatever the
    exit status. *)
Theorem get_team_id_unsigned (app_path : str) w completed :
  codesign w app_path = Completed completed →
  Forall (λ line, contains line (lit "TeamIdentifier=") = false)
         (split_on newline (stderr completed)) →
  MacOSDiscoverer._get_team_id app_path w = (Ok None, w).
Proof.
  intros Hrun Hlines.
  unfold MacOSDiscoverer._get_team_id.
  rewrite (bind_ok _ _ w completed w)
    by (unfold MacOSDiscoverer.run_codesign; by rewrite Hrun).
  destruct (nonempty (stderr completed)); [by apply scan_team_id_none | done].
Qed.

End TeamIdFacts.

Lemma get_team_id_wellformed_witness :
  lit "2DC432GLL2" ≠ [] ∧ lit "2DC432GLL2" ≠ lit "not set" ∧
  (∀ c, head (lit "2DC432GLL2") = Some c → is_space c = false) ∧
  (∀ c, last (lit "2DC432GLL2") = Some c → is_space c = false).
Proof.
  apply (get_team_id_wellformed (host := mac_host)
           (lit "/Applications/ChatGPT.app") mac_world _ mac_world).
  vm_compute. reflexivity.
Defined.

Lemma get_team_id_unsigned_witness :
  MacOSDiscoverer._get_team_id (host := mac_unsigned)
    (lit "/Applications/ChatGPT.app") mac_world = (Ok None, mac_world).
Proof.
  apply (get_team_id_unsigned (host := mac_unsigned) _ _
           {| returncode := 1; stdout := [];
              stderr := lit "/Applications/ChatGPT.app" ++
                        lit ": code object is not signed at all" |});
    [reflexivity|].
  vm_compute. repeat constructor.
Defined.

(** ** Icons *)

Section IconMoreFacts.
Context {host : Host}.


(** X7: when the property list names no icon -- neither [CFBundleIconFile]
    nor [CFBundleIconName] is set -- [_extract_icon] returns [None] and
    touches nothing: no temporary file, no run of [sips]. *)
Theorem extract_icon_without_name (app_path : str) (plist : gmap str str) w :
  MacOSDiscoverer.plist_get plist (lit "CFBundleIconFile") = [] →
  MacOSDiscoverer.plist_get plist (lit "CFBundleIconName") = [] →
  MacOSDiscoverer._extract_icon app_path plist w = (Ok None, w).
Proof.
  intros Hfile Hname. unfold MacOSDiscoverer._extract_icon.
  by rewrite Hfile, Hname.
Qed.

(** X8: when [sips] runs to its end and leaves a regular file under the
    temporary name, the conversion hands back the content of that file if
    the exit status is 0 and [None] otherwise; either way the temporary file
    is removed and nothing else on the file system changes. *)
Theorem convert_icon_result (app_path icon_path : str) w completed fs' data :
  sips (with_temp_file w) icon_path (mkstemp (fs w)) = (Completed completed, fs') →
  fs' !! mkstemp (fs w) = Some (File data) →
  (MacOSDiscoverer.convert_icon app_path icon_path w).1
    = Ok (if (returncode completed =? 0)%Z then Some data else None) ∧
  fs (MacOSDiscoverer.convert_icon app_path icon_path w).2
    = delete (mkstemp (fs w)) fs'.
Proof.
  intros Hrun Htmp.
  unfold MacOSDiscoverer.convert_icon, try_except, mbind, M_bind,
    MacOSDiscoverer.named_temporary_file, MacOSDiscoverer.run_sips.
  fold (with_temp_file w). rewrite Hrun.
  unfold path_exists, read_bytes, unlink. simpl. rewrite Htmp.
  rewrite bool_decide_eq_true_2 by eauto.
  destruct (returncode completed =? 0)%Z; simpl; rewrite Htmp; simpl;
    try rewrite Htmp; simpl; done.
Qed.

End IconMoreFacts.

Lemma extract_icon_without_name_witness :
  MacOSDiscoverer._extract_icon (host := mac_without_sips)
    (lit "/Applications/ChatGPT.app") ∅ mac_world = (Ok None, mac_world).
Proof.
  by apply (extract_icon_without_name (host := mac_without_sips)).
Defined.

Lemma convert_icon_result_witness :
  (MacOSDiscoverer.convert_icon (host := mac_failing_sips)
     (lit "/Applications/ChatGPT.app")
     (lit "/Applications/ChatGPT.app/Contents/Resources/AppIcon.icns")
     mac_world).1 = Ok None ∧
  fs (MacOSDiscoverer.convert_icon (host := mac_failing_sips)
     (lit "/Applications/ChatGPT.app")
     (lit "/Applications/ChatGPT.app/Contents/Resources/AppIcon.icns")
     mac_world).2 = delete (lit "/tmp/tmpicon.png")
                      (<[lit "/tmp/tmpicon.png" := File []]> (fs mac_world)).
Proof.
  exact (convert_icon_result (host := mac_failing_sips)
           (lit "/Applications/ChatGPT.app")
           (lit "/Applications/ChatGPT.app/Contents/Resources/AppIcon.icns")
           mac_world
           {| returncode := 13; stdout := []; stderr := lit "Error 13" |}
           _ [] eq_refl eq_refl).
Defined.

(** ** Records of the macOS discoverer *)

Section MacRecordFacts.
Context {host : Host}.

(** X9: a bundle without an [Info.plist] file, with one that does not
    parse, or with one that has no bundle identifier is skipped: the method
    returns [None], changes nothing and does not run [codesign] (so it
    returns even where [codesign] would raise). *)
Theorem macos_discover_app_skips self (app_path : str) w :
  unreadable_bundle app_path w →
  MacOSDiscoverer._discover_app self app_path w = (Ok None, w).
Proof.
  unfold unreadable_bundle, info_plist_of, MacOSDiscoverer._discover_app.
  intros Hbundle. unfold mbind, M_bind, path_exists, try_except, read_bytes.
  destruct (fs w !! _) as [[data|]|] eqn:Hfile; simpl; rewrite ?Hfile; simpl.
  - destruct (plist_load data) as [plist|]; [|done]. by rewrite Hbundle.
  - done.
  - done.
Qed.

(** The steps of [_discover_app] that end in a record: the record built by
    the constructor, then the icon block. *)
Lemma macos_discover_app_steps self app_path w a w' :
  MacOSDiscoverer._discover_app self app_path w = (Ok (Some a), w') →
  ∃ plist app w1,
    MacOSDiscoverer.attach_icon self app_path plist app w1 = (Ok a, w') ∧
    icon_path app = None ∧ icon_base64 app = None ∧
    windows app = None ∧ linux app = None ∧
    app_id app = generate_app_id (name app) ∧
    (∃ signature, macos app = Some signature ∧ publisher signature = None).
Proof.
  unfold MacOSDiscoverer._discover_app. intros Hrun.
  apply bind_inv in Hrun as (present & w1 & _ & Hrun).
  destruct present; [|by apply mret_inv in Hrun as [? _]].
  apply bind_inv in Hrun as (loaded & w2 & _ & Hrun).
  destruct loaded as [plist|]; [|by apply mret_inv in Hrun as [? _]].
  destruct (MacOSDiscoverer.plist_get plist (lit "CFBundleIdentifier"))
    as [|c0 b0] eqn:Hb; [by apply mret_inv in Hrun as [? _]|].
  apply bind_inv in Hrun as (team & w3 & _ & Hrun).
  match type of Hrun with
  | context [is_ai_related ?n ?b] =>
      destruct (is_ai_related n b) as [is_ai is_host]
  end.
  apply bind_inv in Hrun as (app & w4 & Hnew & Hrun).
  apply bind_inv in Hrun as (app' & w5 & Hicon & Hrun).
  apply mret_inv in Hrun as [[= <-] <-].
  exists plist, app, w4. split; [done|].
  injection Hnew as <- _. simpl. repeat split; try done. by eexists.
Qed.

Lemma attach_icon_same self app_path plist app w a w' :
  MacOSDiscoverer.attach_icon self app_path plist app w = (Ok a, w') →
  same_but_icons a app.
Proof.
  unfold MacOSDiscoverer.attach_icon, same_but_icons. intros Hrun.
  destruct (extract_icons self); [|by apply mret_inv in Hrun as [<- _]].
  apply bind_inv in Hrun as (icon_data & w1 & _ & Hrun).
  destruct icon_data as [[|c data]|]; try by apply mret_inv in Hrun as [<- _].
  destruct (icons_dir self) as [dir|].
  - apply bind_inv in Hrun as (_ & w2 & _ & Hrun).
    by apply mret_inv in Hrun as [<- _].
  - by apply mret_inv in Hrun as [<- _].
Qed.

(** What the icon block does to the icon fields of a record that has none
    yet. *)
Lemma attach_icon_fields self app_path plist app w a w' :
  MacOSDiscoverer.attach_icon self app_path plist app w = (Ok a, w') →
  icon_path app = None → icon_base64 app = None →
  (icon_path a = None ∧ icon_base64 a = None) ∨
  (extract_icons self = true ∧ icon_base64 a = None ∧
   ∃ dir data, icons_dir self = Some dir ∧ data ≠ [] ∧
     icon_path a = Some (path_join dir (app_id a ++ lit ".png")) ∧
     fs w' !! path_join dir (app_id a ++ lit ".png") = Some (File data) ∧
     fs w' !! path_parent (path_join dir (app_id a ++ lit ".png")) = Some Dir) ∨
  (extract_icons self = true ∧ icon_path a = None ∧ icons_dir self = None ∧
   ∃ data, data ≠ [] ∧ icon_base64 a = Some (b64encode data)).
Proof.
  unfold MacOSDiscoverer.attach_icon. intros Hrun Hpath Hinline.
  destruct (extract_icons self); [|apply mret_inv in Hrun as [<- _]; by left].
  apply bind_inv in Hrun as (icon_data & w1 & _ & Hrun).
  destruct icon_data as [[|c data]|];
    try (apply mret_inv in Hrun as [<- _]; by left).
  destruct (icons_dir self) as [dir|].
  - apply bind_inv in Hrun as (done_writing & w2 & Hwrite & Hrun).
    apply mret_inv in Hrun as [<- Hw2]. subst w2. right. left.
    split; [done|]. split; [done|]. exists dir, (c :: data).
    split; [done|]. split; [done|]. split; [done|]. simpl.
    unfold write_bytes in Hwrite.
    destruct (fs w1 !! path_parent _) as [[content|]|] eqn:Hparent; try done.
    destruct (fs w1 !! path_join _ _) as [[old|]|] eqn:Hold; try done;
      injection Hwrite as Hunit <-; simpl;
      (split; [apply lookup_insert_eq|]);
      (rewrite lookup_insert_ne; [done | congruence]).
  - apply mret_inv in Hrun as [<- _]. right. right.
    split; [done|]. split; [done|]. split; [done|]. by exists (c :: data).
Qed.

(** X10: in a record of the macOS discoverer the two icon fields are never
    both set; both are unset when icons are not asked for; the icon path is
    set only when an icon directory is given and the inline icon only when
    none is. *)
Theorem macos_icon_fields_exclusive self app_path w a w' :
  MacOSDiscoverer._discover_app self app_path w = (Ok (Some a), w') →
  (icon_path a = None ∨ icon_base64 a = None) ∧
  (extract_icons self = false → icon_path a = None ∧ icon_base64 a = None) ∧
  (is_Some (icon_path a) → is_Some (icons_dir self)) ∧
  (is_Some (icon_base64 a) → icons_dir self = None).
Proof.
  intros Hrun.
  apply macos_discover_app_steps in Hrun
    as (plist & app & w1 & Hicon & Hpath & Hinline & _).
  destruct (attach_icon_fields _ _ _ _ _ _ _ Hicon Hpath Hinline)
    as [[Hp Hi] | [(Hex & Hi & dir & data & Hdir & _ & Hp & _)
                 | (Hex & Hp & Hdir & data & _ & Hi)]];
    rewrite ?Hp, ?Hi, ?Hex, ?Hdir; repeat split; auto; try done;
    intros [? ?]; done.
Qed.

(** X11: when a record of the macOS discoverer carries an icon path, the
    path is [<icons_dir>/<app_id>.png]; when the method returns, that file
    holds the non-empty icon data and stands in a directory that is there:
    the method writes the file and does not create the directory. *)
Theorem macos_icon_file_written self app_path w a w' icon :
  MacOSDiscoverer._discover_app self app_path w = (Ok (Some a), w') →
  icon_path a = Some icon →
  ∃ dir data,
    icons_dir self = Some dir ∧
    icon = path_join dir (app_id a ++ lit ".png") ∧
    data ≠ [] ∧ fs w' !! icon = Some (File data) ∧
    fs w' !! path_parent icon = Some Dir.
Proof.
  intros Hrun Hicon_path.
  apply macos_discover_app_steps in Hrun
    as (plist & app & w1 & Hicon & Hpath & Hinline & _).
  destruct (attach_icon_fields _ _ _ _ _ _ _ Hicon Hpath Hinline)
    as [[Hp Hi] | [(Hex & Hi & dir & data & Hdir & Hdata & Hp & Hfile & Hparent)
                 | (Hex & Hp & Hdir & data & _ & Hi)]]; try congruence.
  rewrite Hp in Hicon_path. injection Hicon_path as <-.
  by exists dir, data.
Qed.

(** X12: a record of the macOS discoverer has a macOS signature and no
    other; the signature lists the bundle path as its only path, which is
    also the path of the record, and never names a publisher; and the
    identifier of the record is [generate_app_id] of its name. *)
Theorem macos_record_signature self app_path w a w' :
  MacOSDiscoverer._discover_app self app_path w = (Ok (Some a), w') →
  (∃ signature, macos a = Some signature ∧ paths signature = [app_path] ∧
                publisher signature = None) ∧
  windows a = None ∧ linux a = None ∧
  path a = app_path ∧
  app_id a = generate_app_id (name a).
Proof.
  intros Hrun.
  destruct (macos_discover_app_inv _ _ _ _ _ Hrun)
    as (signature & b & Hm & _ & _ & Hpaths & Hpath & _).
  apply macos_discover_app_steps in Hrun
    as (plist & app & w1 & Hicon & _ & _ & Hwin & Hlin & Hid & sig' & Hsig' & Hpub).
  apply attach_icon_same in Hicon
    as (Hid' & Hn' & _ & _ & _ & Hm' & Hw' & Hl' & _).
  split.
  - exists signature. split; [done|]. split; [done|].
    rewrite Hm' in Hm. rewrite Hsig' in Hm. by injection Hm as <-.
  - rewrite Hw', Hl', Hid', Hn'. done.
Qed.

End MacRecordFacts.

Lemma macos_discover_app_skips_witness :
  MacOSDiscoverer._discover_app (host := mac_without_codesign) without_icons
    (lit "/Applications/Utilities") mac_world = (Ok None, mac_world).
Proof.
  apply (macos_discover_app_skips (host := mac_without_codesign)).
  vm_compute. exact I.
Defined.

Lemma macos_icon_fields_exclusive_witness :
  ∃ a w',
    MacOSDiscoverer._discover_app (host := mac_host) with_inline_icons
      (lit "/Applications/ChatGPT.app") mac_world = (Ok (Some a), w') ∧
    icon_base64 a = Some (lit "PNG") ∧
    (icon_path a = None ∨ icon_base64 a = None).
Proof.
  assert (Hrun : ∃ a w',
    MacOSDiscoverer._discover_app (host := mac_host) with_inline_icons
      (lit "/Applications/ChatGPT.app") mac_world = (Ok (Some a), w') ∧
    icon_base64 a = Some (lit "PNG")).
  { eexists _, _. split; vm_compute; reflexivity. }
  destruct Hrun as (a & w' & Hrun & Hinline). exists a, w'.
  split; [done|]. split; [done|].
  exact (proj1 (macos_icon_fields_exclusive (host := mac_host) _ _ _ _ _ Hrun)).
Defined.

(** Without the directory the write raises, out of [_discover_app]. *)
Example discover_app_without_icons_directory :
  (MacOSDiscoverer._discover_app (host := mac_host) with_icons_dir
     (lit "/Applications/ChatGPT.app") mac_world).1
  = Raise FileNotFoundError.
Proof. vm_compute. reflexivity. Qed.

Lemma macos_icon_file_written_witness :
  ∃ a w' dir data,
    MacOSDiscoverer._discover_app (host := mac_host) with_icons_dir
      (lit "/Applications/ChatGPT.app") mac_world_with_icons = (Ok (Some a), w') ∧
    icons_dir with_icons_dir = Some dir ∧
    lit "/icons/chatgpt.png" = path_join (Host := mac_host) dir (app_id a ++ lit ".png") ∧
    data ≠ [] ∧ fs w' !! lit "/icons/chatgpt.png" = Some (File data) ∧
    fs w' !! path_parent (Host := mac_host) (lit "/icons/chatgpt.png") = Some Dir.
Proof.
  assert (Hrun : ∃ a w',
    MacOSDiscoverer._discover_app (host := mac_host) with_icons_dir
      (lit "/Applications/ChatGPT.app") mac_world_with_icons = (Ok (Some a), w') ∧
    icon_path a = Some (lit "/icons/chatgpt.png")).
  { eexists _, _. split; vm_compute; reflexivity. }
  destruct Hrun as (a & w' & Hrun & Hicon).
  destruct (macos_icon_file_written (host := mac_host) _ _ _ _ _ _ Hrun Hicon)
    as (dir & data & ?).
  by exists a, w', dir, data.
Defined.

Lemma macos_record_signature_witness :
  ∃ a w',
    MacOSDiscoverer._discover_app (host := mac_host) without_icons
      (lit "/Applications/ChatGPT.app") mac_world = (Ok (Some a), w') ∧
    windows a = None ∧ linux a = None ∧
    path a = lit "/Applications/ChatGPT.app" ∧
    app_id a = generate_app_id (host := mac_host) (name a).
Proof.
  assert (Hrun : ∃ a w',
    MacOSDiscoverer._discover_app (host := mac_host) without_icons
      (lit "/Applications/ChatGPT.app") mac_world = (Ok (Some a), w')).
  { eexists _, _. vm_compute. reflexivity. }
  destruct Hrun as (a & w' & Hrun). exists a, w'. split; [done|].
  exact (proj2 (macos_record_signature (host := mac_host) _ _ _ _ _ Hrun)).
Defined.

(** ** The Windows discoverer *)

Lemma concat_map_keep {A} (f : A → bool) (l : list A) :
  concat (map (λ x, if f x then [x] else []) l) = filter (λ x, f x = true) l.
Proof.
  induction l as [|x l IH]; [done|]. simpl. rewrite filter_cons, IH.
  destruct (f x); [by rewrite decide_True | by rewrite decide_False].
Qed.

Lemma filter_concat_map {A B} (P : B → Prop) `{!∀ y, Decision (P y)}
    (g : A → list B) (l : list A) :
  filter P (concat (map g l)) = concat (map (λ x, filter P (g x)) l).
Proof.
  induction l as [|x l IH]; [done|]. simpl. by rewrite filter_app, IH.
Qed.

(** A loop whose every round returns, leaves the files alone and adds
    records with known paths does the same as a whole. *)
Lemma for_each_paths {X : Type} (files : gmap str node) (Q : DiscoveredApp → Prop)
    (l : list X) (body : X → list DiscoveredApp → M (list DiscoveredApp))
    (added : X → list str) :
  (∀ x apps w, fs w = files → Forall Q apps →
     ∃ apps' w', body x apps w = (Ok apps', w') ∧ fs w' = files ∧
                 map path apps' = map path apps ++ added x ∧ Forall Q apps') →
  ∀ apps w, fs w = files → Forall Q apps →
     ∃ apps' w', for_each l body apps w = (Ok apps', w') ∧ fs w' = files ∧
                 map path apps' = map path apps ++ concat (map added l) ∧
                 Forall Q apps'.
Proof.
  intros Hbody. induction l as [|x l IH]; intros apps w Hfs HQ.
  - exists apps, w. simpl. by rewrite app_nil_r.
  - destruct (Hbody x apps w Hfs HQ) as (apps1 & w1 & Hx & Hfs1 & Hp1 & HQ1).
    destruct (IH apps1 w1 Hfs1 HQ1) as (apps2 & w2 & Hl & Hfs2 & Hp2 & HQ2).
    exists apps2, w2. rewrite for_each_cons, (bind_ok _ _ _ _ _ Hx).
    split; [done|]. split; [done|]. split; [|done].
    rewrite Hp2, Hp1. simpl. by rewrite app_assoc.
Qed.

Section WindowsFacts.
Context {host : Host}.

Lemma windows_discover_app_run (exe_path : str) w :
  ∃ found w', WindowsDiscoverer._discover_app exe_path w = (Ok found, w') ∧
    fs w' = fs w ∧
    if windows_recognised exe_path
    then ∃ a, found = Some a ∧ path a = exe_path ∧ windows_record a
    else found = None.
Proof.
  unfold WindowsDiscoverer._discover_app, windows_recognised.
  destruct (is_ai_related (path_stem exe_path) []) as [is_ai is_host] eqn:Hrel.
  simpl. destruct (is_ai || is_host) eqn:Hany.
  - replace (negb is_ai && negb is_host) with false
      by (by destruct is_ai, is_host).
    eexists _, _. split; [reflexivity|]. split; [done|].
    eexists. split; [done|]. split; [done|].
    unfold windows_record. simpl. done.
  - replace (negb is_ai && negb is_host) with true
      by (by destruct is_ai, is_host).
    by exists None, w.
Qed.

(** The inner loop of [discover_all], over the executables of one search
    path. *)
Lemma windows_scan_run (files : gmap str node) (exes : list str) apps w :
  fs w = files → Forall windows_record apps →
  ∃ apps' w',
    for_each exes (λ exe_path apps,
      if windows_skipped exe_path then mret apps
      else
        app ← WindowsDiscoverer._discover_app exe_path;
        match app with
        | Some a => mret (apps ++ [a])
        | None => mret apps
        end) apps w = (Ok apps', w') ∧
    fs w' = files ∧
    map path apps' = map path apps ++
      concat (map (λ exe_path, if windows_kept exe_path then [exe_path] else []) exes) ∧
    Forall windows_record apps'.
Proof.
  apply for_each_paths. clear. intros exe_path apps w Hfs HQ.
  unfold windows_kept. destruct (windows_skipped exe_path); simpl.
  - exists apps, w. by rewrite app_nil_r.
  - destruct (windows_discover_app_run exe_path w) as (found & w' & Hrun & Hfs' & Hfound).
    rewrite (bind_ok _ _ _ _ _ Hrun).
    destruct (windows_recognised exe_path).
    + destruct Hfound as (a & -> & Hpath & Ha). exists (apps ++ [a]), w'.
      split; [done|]. split; [congruence|]. split.
      * by rewrite map_app, <- Hpath.
      * apply Forall_app. by split; [|constructor].
    + subst found. exists apps, w'. split; [done|]. split; [congruence|].
      by rewrite app_nil_r.
Qed.

(** X13: [WindowsDiscoverer.discover_all] never raises and leaves the file
    system alone; the paths of the records it returns are, in scan order, the
    executables listed under the search paths that exist, minus those whose
    name contains [uninstall], [update], [setup] or [installer] and those
    [is_ai_related] does not recognise by their stem.  Nothing is
    deduplicated: an executable listed twice is returned twice. *)
Theorem windows_discover_all_paths w :
  ∃ apps w',
    WindowsDiscoverer.discover_all w = (Ok apps, w') ∧
    fs w' = fs w ∧
    map path apps
    = filter (λ exe_path, windows_kept exe_path = true) (windows_candidates (fs w)).
Proof.
  unfold WindowsDiscoverer.discover_all, windows_candidates.
  pose proof (for_each_paths (fs w) windows_record WindowsDiscoverer.search_paths
    (λ search_path apps,
       present ← path_exists search_path;
       if negb present then mret apps else
       files ← get_fs;
       for_each (rglob files search_path (lit "*.exe")) (λ exe_path apps,
         if any_in (lower (path_name exe_path))
              (map lit ["uninstall"; "update"; "setup"; "installer"]%string)
         then mret apps
         else
           app ← WindowsDiscoverer._discover_app exe_path;
           match app with
           | Some a => mret (apps ++ [a])
           | None => mret apps
           end) apps)
    (λ search_path,
       filter (λ exe_path, windows_kept exe_path = true)
         (if bool_decide (is_Some (fs w !! search_path))
          then rglob (fs w) search_path (lit "*.exe") else [])))
    as Hloop.
  lapply Hloop; clear Hloop; [intros Hloop|].
  2: { intros search_path apps w0 Hfs HQ.
    unfold mbind at 1, M_bind at 1, path_exists. rewrite Hfs.
    destruct (bool_decide (is_Some (fs w !! search_path))); simpl.
    + unfold mbind at 1, M_bind at 1, get_fs. rewrite Hfs.
      rewrite <- concat_map_keep. by apply windows_scan_run.
    + exists apps, w0. by rewrite app_nil_r. }
  destruct (Hloop [] w eq_refl) as (apps & w' & Hrun & Hfs & Hpaths & _);
    [constructor|].
  exists apps, w'. split; [done|]. split; [done|].
  rewrite Hpaths. symmetry.
  apply (filter_concat_map (λ exe_path, windows_kept exe_path = true)).
Qed.

(** X14: every record [WindowsDiscoverer.discover_all] returns is an AI
    application or an AI host -- the others are dropped at discovery -- is
    named after the stem of its executable, has category [other], and
    carries a Windows signature made of the path and the file name of the
    executable, and no other signature. *)
Theorem windows_discover_all_records w apps w' :
  WindowsDiscoverer.discover_all w = (Ok apps, w') →
  Forall windows_record apps.
Proof.
  unfold WindowsDiscoverer.discover_all.
  apply (for_each_inv (Forall windows_record)); [|constructor].
  intros search_path acc w1 acc' w2 Hacc Hrun.
  apply bind_inv in Hrun as (present & w3 & _ & Hrun).
  destruct present; [|by apply mret_inv in Hrun as [<- _]].
  change (negb true) with false in Hrun. cbv iota in Hrun.
  apply bind_inv in Hrun as (files & w4 & Hfiles & Hrun).
  destruct (windows_scan_run (fs w4) (rglob files search_path (lit "*.exe"))
              acc w4 eq_refl Hacc) as (apps' & w5 & Hscan & _ & _ & Hrecords).
  unfold windows_skipped in Hscan. rewrite Hscan in Hrun.
  by injection Hrun as <- _.
Qed.

End WindowsFacts.

Lemma windows_discover_all_records_witness :
  ∃ apps w',
    WindowsDiscoverer.discover_all (host := windows_host) windows_world
      = (Ok apps, w') ∧
    map path apps = [ lit "C:\Program Files\Cursor\Cursor.exe";
                      lit "Programs\cursor\Cursor.exe" ] ∧
    map app_id apps = [ lit "cursor"; lit "cursor" ] ∧
    Forall (windows_record (host := windows_host)) apps.
Proof.
  assert (Hrun : ∃ apps w',
    WindowsDiscoverer.discover_all (host := windows_host) windows_world
      = (Ok apps, w') ∧
    map path apps = [ lit "C:\Program Files\Cursor\Cursor.exe";
                      lit "Programs\cursor\Cursor.exe" ] ∧
    map app_id apps = [ lit "cursor"; lit "cursor" ]).
  { eexists _, _. split; [vm_compute; reflexivity|]. split; vm_compute; reflexivity. }
  destruct Hrun as (apps & w' & Hrun & Hpaths & Hids). exists apps, w'.
  split; [done|]. split; [done|]. split; [done|].
  exact (windows_discover_all_records (host := windows_host) _ _ _ Hrun).
Defined.

(** ** Desktop entries, again *)

Lemma split_ws_from_words (cur s : str) :
  Forall (λ c, is_space c = false) cur →
  Forall (λ word, word ≠ [] ∧ Forall (λ c, is_space c = false) word)
         (split_ws_from cur s).
Proof.
  revert cur. induction s as [|c s IH]; intros cur Hcur; simpl.
  - destruct cur as [|d cur]; simpl; [constructor|].
    constructor; [|constructor]. split.
    + intros Hnil. apply (f_equal length) in Hnil.
      rewrite length_reverse in Hnil. done.
    + by apply Forall_reverse.
  - destruct (is_space c) eqn:Hc.
    + destruct cur as [|d cur]; simpl; [apply IH; constructor|].
      constructor; [|apply IH; constructor]. split.
      * intros Hnil. apply (f_equal length) in Hnil.
        rewrite length_reverse in Hnil. done.
      * by apply Forall_reverse.
    + apply IH. by constructor.
Qed.

Lemma strip_chars_Forall (P : N → Prop) p (s : str) :
  Forall P s → Forall P (strip_chars p s).
Proof.
  intros Hs. destruct (strip_chars_infix p s) as (l1 & l2 & Hsplit).
  rewrite Hsplit in Hs. apply Forall_app in Hs as [_ Hs].
  by apply Forall_app in Hs as [Hs _].
Qed.

Lemma strip_stripped (s : str) : stripped (strip s).
Proof.
  split; intros c.
  - apply (strip_chars_head is_space).
  - apply (strip_chars_last is_space).
Qed.

Section DesktopMoreFacts.
Context {host : Host}.

(** What the loop of [_parse_desktop_file] keeps true of its two
    variables. *)
Lemma parse_line_keeps (line : str) acc w acc' w' :
  LinuxDiscoverer.parse_line line acc w = (Ok acc', w') →
  (∀ n, acc.1 = Some n → stripped n) ∧
  (∀ e, acc.2 = Some e → Forall (λ c, is_space c = false) e) →
  (∀ n, acc'.1 = Some n → stripped n) ∧
  (∀ e, acc'.2 = Some e → Forall (λ c, is_space c = false) e).
Proof.
  destruct acc as [n0 e0]. unfold LinuxDiscoverer.parse_line.
  intros Hrun [Hn He].
  destruct (startswith line (lit "Name=")).
  - apply bind_inv in Hrun as (value & w1 & _ & Hrun).
    apply mret_inv in Hrun as [<- _]. split; [|done].
    intros n [= <-]. apply strip_stripped.
  - destruct (startswith line (lit "Exec=")).
    + apply bind_inv in Hrun as (value & w1 & _ & Hrun).
      apply bind_inv in Hrun as (word & w2 & Hword & Hrun).
      apply mret_inv in Hrun as [<- _]. split; [done|].
      intros e [= <-]. apply strip_chars_Forall.
      unfold item in Hword.
      destruct (split_ws value !! 0%nat) as [word'|] eqn:Hlookup; [|done].
      apply mret_inv in Hword as [-> _].
      pose proof (split_ws_from_words [] value (Forall_nil_2 _)) as Hwords.
      apply (proj1 (Forall_forall _ _) Hwords word).
      by apply list_elem_of_lookup_2 in Hlookup.
    + by apply mret_inv in Hrun as [<- _].
Qed.

(** X15: a record of the Linux discoverer has a non-empty name without
    white space at either end and a path without any white space (the first
    word of the [Exec] value, or the empty string); it carries a Linux
    signature and no other, and its identifier is [generate_app_id] of its
    name. *)
Theorem linux_record_shape (file : str) w a w' :
  LinuxDiscoverer._parse_desktop_file file w = (Ok (Some a), w') →
  name a ≠ [] ∧ stripped (name a) ∧
  Forall (λ c, is_space c = false) (path a) ∧
  macos a = None ∧ windows a = None ∧
  (∃ signature, linux a = Some signature ∧
     paths signature = if nonempty (path a) then [path a] else []) ∧
  app_id a = generate_app_id (name a).
Proof.
  unfold LinuxDiscoverer._parse_desktop_file. intros Hrun.
  apply bind_inv in Hrun as (content & w1 & _ & Hrun).
  destruct content as [content|]; [|by apply mret_inv in Hrun as [? _]].
  apply bind_inv in Hrun as ([nm ex] & w2 & Hloop & Hrun).
  assert (Hkept : (∀ n, nm = Some n → stripped n) ∧
                  (∀ e, ex = Some e → Forall (λ c, is_space c = false) e)).
  { revert Hloop.
    apply (for_each_inv (λ acc : option str * option str,
             (∀ n, acc.1 = Some n → stripped n) ∧
             (∀ e, acc.2 = Some e → Forall (λ c, is_space c = false) e))).
    - intros line acc w3 acc' w4 Hacc Hline. by eapply parse_line_keeps.
    - done. }
  destruct Hkept as [Hname Hexec].
  destruct nm as [[|c nm]|]; try by apply mret_inv in Hrun as [? _].
  destruct (is_ai_related (c :: nm) []) as [is_ai is_host].
  apply bind_inv in Hrun as (app & w3 & Hnew & Hrun).
  apply mret_inv in Hrun as [[= <-] _].
  injection Hnew as <- _. simpl.
  split; [done|]. split; [by apply Hname|].
  destruct ex as [[|d ex]|]; simpl; repeat split; eauto.
Qed.

Lemma parse_line_exec_blank (line : str) acc w :
  startswith line (lit "Name=") = false →
  startswith line (lit "Exec=") = true →
  split_ws (line_value line) = [] →
  LinuxDiscoverer.parse_line line acc w = (Raise IndexError, w).
Proof.
  intros Hn He Hwords. destruct acc as [n e]. unfold LinuxDiscoverer.parse_line.
  rewrite Hn, He. unfold item. rewrite (exec_line_value _ He).
  rewrite (bind_ok _ _ w (line_value line) w) by done.
  by rewrite Hwords.
Qed.

Lemma parse_lines_blank_exec (lines : list str) acc w :
  Exists (λ line, split_ws (line_value line) = [])
         (filter (λ line, startswith line (lit "Exec=") = true) lines) →
  for_each lines LinuxDiscoverer.parse_line acc w = (Raise IndexError, w).
Proof.
  revert acc. induction lines as [|line lines IH]; intros acc Hblank.
  - by apply Exists_nil in Hblank.
  - rewrite filter_cons in Hblank. rewrite for_each_cons.
    destruct (startswith line (lit "Name=")) eqn:Hn.
    + rewrite (name_line_not_exec _ Hn) in Hblank.
      rewrite decide_False in Hblank by done.
      rewrite (bind_ok _ _ w _ w (parse_line_name line acc w Hn)). by apply IH.
    + destruct (startswith line (lit "Exec=")) eqn:He.
      * rewrite decide_True in Hblank by done.
        destruct (split_ws (line_value line)) as [|word rest] eqn:Hwords.
        -- unfold mbind, M_bind.
           by rewrite (parse_line_exec_blank line acc w Hn He Hwords).
        -- apply Exists_cons in Hblank as [Hblank|Hblank]; [congruence|].
           assert (Hfilled : split_ws (line_value line) ≠ []) by by rewrite Hwords.
           rewrite (bind_ok _ _ w _ w (parse_line_exec line acc w Hn He Hfilled)).
           by apply IH.
      * rewrite decide_False in Hblank by done.
        rewrite (bind_ok _ _ w _ w (parse_line_other line acc w Hn He)). by apply IH.
Qed.

(** X16: a readable desktop entry with an [Exec=] line that carries
    nothing but white space makes [_parse_desktop_file] raise [IndexError]:
    [split()[0]] has no first word, and nothing catches the exception. *)
Theorem parse_desktop_file_blank_exec (file : str) w data content :
  fs w !! file = Some (File data) → decode_text data = Some content →
  Exists (λ line, split_ws (line_value line) = [])
         (key_lines (lit "Exec=") content) →
  LinuxDiscoverer._parse_desktop_file file w = (Raise IndexError, w).
Proof.
  intros Hfile Hdecode Hblank. unfold LinuxDiscoverer._parse_desktop_file.
  rewrite (bind_ok _ _ w _ w (read_text_ok file w data content Hfile Hdecode)).
  unfold mbind, M_bind. by rewrite (parse_lines_blank_exec _ _ _ Hblank).
Qed.

(** X17: a desktop entry that cannot be read -- the file is missing, is a
    directory, or does not decode -- is skipped: [_parse_desktop_file]
    returns [None] and changes nothing. *)
Theorem parse_desktop_file_unreadable (file : str) w :
  unreadable_entry file w →
  LinuxDiscoverer._parse_desktop_file file w = (Ok None, w).
Proof.
  unfold unreadable_entry, LinuxDiscoverer._parse_desktop_file,
    LinuxDiscoverer.read_text, try_except, read_bytes, mbind, M_bind.
  intros Hentry. destruct (fs w !! file) as [[data|]|]; simpl; [|done|done].
  by rewrite Hentry.
Qed.

End DesktopMoreFacts.

Lemma linux_record_shape_witness :
  ∃ a w',
    LinuxDiscoverer._parse_desktop_file (host := linux_host) desktop_file
      (desktop_world vscode_entry) = (Ok (Some a), w') ∧
    path a = lit "/usr/share/code/code" ∧
    name a ≠ [] ∧ stripped (name a) ∧
    Forall (λ c, is_space c = false) (path a).
Proof.
  assert (Hrun : ∃ a w',
    LinuxDiscoverer._parse_desktop_file (host := linux_host) desktop_file
      (desktop_world vscode_entry) = (Ok (Some a), w') ∧
    path a = lit "/usr/share/code/code").
  { eexists _, _. split; vm_compute; reflexivity. }
  destruct Hrun as (a & w' & Hrun & Hpath). exists a, w'.
  split; [done|]. split; [done|].
  destruct (linux_record_shape (host := linux_host) _ _ _ _ Hrun)
    as (Hname & Hstripped & Hwords & _).
  done.
Defined.

Lemma parse_desktop_file_blank_exec_witness :
  LinuxDiscoverer._parse_desktop_file (host := linux_host) desktop_file
    (desktop_world blank_exec_entry)
  = (Raise IndexError, desktop_world blank_exec_entry).
Proof.
  apply (parse_desktop_file_blank_exec (host := linux_host) desktop_file
           (desktop_world blank_exec_entry) blank_exec_entry blank_exec_entry);
    [reflexivity | reflexivity |].
  vm_compute. apply Exists_cons_hd. reflexivity.
Defined.

Lemma parse_desktop_file_unreadable_witness :
  LinuxDiscoverer._parse_desktop_file (host := linux_host)
    (lit "/usr/share/applications/gone.desktop") (desktop_world vscode_entry)
  = (Ok None, desktop_world vscode_entry).
Proof.
  apply (parse_desktop_file_unreadable (host := linux_host)).
  vm_compute. exact I.
Defined.

(** ** The entry point, again *)

Section EntryFacts.
Context {host : Host}.

(** X18: with [ai_only] set, every record [discover_apps] returns is an AI
    application or an AI host. *)
Theorem discover_apps_ai_only icons dir w apps w' :
  discover_apps true icons dir w = (Ok apps, w') →
  Forall (λ a, is_ai_app a || is_ai_host a = true) apps.
Proof.
  unfold discover_apps. intros Hrun.
  match type of Hrun with
  | context [match ?d with Some _ => _ | None => _ end] =>
      destruct d as [discover_all|]
  end.
  - apply bind_inv in Hrun as (found & w1 & _ & Hrun).
    apply mret_inv in Hrun as [<- _].
    rewrite sort_by_perm. apply Forall_forall. intros a Ha.
    by apply list_elem_of_filter in Ha as [Ha _].
  - apply bind_inv in Hrun as (printed & w1 & _ & Hrun).
    apply mret_inv in Hrun as [<- _]. constructor.
Qed.

(** X19: on a platform that is not [Darwin], [Windows] or [Linux] (the
    names are compared as they are, case included) [discover_apps] returns
    the empty list, reports the platform on standard error and does nothing
    else. *)
Theorem discover_apps_unsupported ai_only icons dir w :
  system ≠ lit "Darwin" → system ≠ lit "Windows" → system ≠ lit "Linux" →
  discover_apps ai_only icons dir w
  = (Ok [], {| fs := fs w; clock := clock w;
               errors := errors w ++ [UnsupportedPlatform system] |}).
Proof.
  intros Hmac Hwin Hlin. unfold discover_apps.
  by rewrite !bool_decide_eq_false_2.
Qed.

End EntryFacts.

Lemma discover_apps_ai_only_witness :
  ∃ (apps : list DiscoveredApp) w',
    discover_apps (host := mac_host) true false None mac_world = (Ok apps, w') ∧
    map name apps = [lit "ChatGPT"] ∧
    Forall (λ a, is_ai_app a || is_ai_host a = true) apps.
Proof.
  assert (Hrun : ∃ (apps : list DiscoveredApp) w',
    discover_apps (host := mac_host) true false None mac_world = (Ok apps, w') ∧
    map name apps = [lit "ChatGPT"]).
  { eexists _, _. split; vm_compute; reflexivity. }
  destruct Hrun as (apps & w' & Hrun & Hnames). exists apps, w'.
  split; [done|]. split; [done|].
  exact (discover_apps_ai_only (host := mac_host) _ _ _ _ _ Hrun).
Defined.

Lemma discover_apps_unsupported_witness :
  discover_apps (host := bsd_host) false false None mac_world
  = (Ok [], {| fs := fs mac_world; clock := 0;
               errors := [UnsupportedPlatform (lit "FreeBSD")] |}).
Proof.
  apply (discover_apps_unsupported (host := bsd_host)); vm_compute; discriminate.
Defined.

(** ** Stability of the sort *)

Section SortStable.
Context {A K : Type} (key : A → K) (lt : K → K → bool).
Context (P : A → Prop) `{!∀ a, Decision (P a)}.
Hypothesis lt_asym : ∀ k1 k2, lt k1 k2 = true → lt k2 k1 = false.
Hypothesis P_same_key : ∀ a b, P a → P b → key a = key b.

Lemma insert_by_filter (x : A) (l : list A) :
  filter P (insert_by key lt x l) = filter P (x :: l).
Proof.
  induction l as [|y l IH]; [done|]. simpl.
  destruct (lt (key y) (key x)) eqn:Hyx; [|done].
  rewrite (filter_cons _ y), IH, !filter_cons.
  destruct (decide (P x)) as [Hx|Hx], (decide (P y)) as [Hy|Hy]; try done.
  rewrite (P_same_key y x Hy Hx) in Hyx.
  pose proof (lt_asym _ _ Hyx). congruence.
Qed.

Lemma sort_by_filter (l : list A) : filter P (sort_by key lt l) = filter P l.
Proof.
  induction l as [|x l IH]; [done|].
  change (sort_by key lt (x :: l)) with (insert_by key lt x (sort_by key lt l)).
  by rewrite insert_by_filter, !filter_cons, IH.
Qed.

End SortStable.

(** X20: the sort of [discover_apps] is stable: the records that share a
    sort key -- the same flags and the same lower-cased name -- come out in
    the order in which they went in. *)
Theorem discover_apps_sort_stable {host : Host} (l : list DiscoveredApp)
    (k : bool * bool * str) :
  filter (λ a, sort_key a = k) (sort_by sort_key key_lt l)
  = filter (λ a, sort_key a = k) l.
Proof.
  apply sort_by_filter; [apply key_lt_asym | congruence].
Qed.

(** ** The structured document, again *)

Lemma filter_without_key (d : dict) k :
  key_absent k d = true →
  filter (λ kv : str * value, kv.1 ≠ k ∧ is_none kv.2 = false) d
  = filter (λ kv, is_none kv.2 = false) d.
Proof.
  induction d as [|[k' v] d IH]; [done|]. simpl.
  intros Hk. apply andb_true_iff in Hk as [Hk' Hk].
  apply negb_true_iff, bool_decide_eq_false in Hk'.
  rewrite !filter_cons, (IH Hk). simpl.
  destruct (decide (is_none v = false)).
  - by rewrite decide_True.
  - rewrite decide_False; [done|]. by intros [_ ?].
Qed.

(** X21: the no-icon form of [to_dict] is the icon form with the
    [icon_base64] key removed: nothing else differs between the two. *)
Theorem to_dict_without_icon (a : DiscoveredApp) :
  to_dict a false = dict_pop (to_dict a true) (lit "icon_base64").
Proof.
  rewrite !to_dict_unfold. unfold dict_pop.
  rewrite list_filter_filter, !filter_app.
  rewrite !filter_without_key by reflexivity.
  rewrite (filter_cons _ (lit "icon_base64", _)).
  rewrite decide_False by (by intros [Hkey _]).
  reflexivity.
Qed.

(** X22: the keys of the exported object are field names of
    [DiscoveredApp] in declaration order, none of them twice; and the eight
    fields that are always set -- identifier, name, category, path, the two
    flags, the time stamp and the machine identifier -- are always there. *)
Theorem to_dict_keys (a : DiscoveredApp) (include_icon : bool) :
  (to_dict a include_icon).*1 `sublist_of` field_names ∧
  NoDup (to_dict a include_icon).*1 ∧
  dict_get (to_dict a include_icon) (lit "app_id") = VStr (app_id a) ∧
  dict_get (to_dict a include_icon) (lit "name") = VStr (name a) ∧
  dict_get (to_dict a include_icon) (lit "category") = VStr (category a) ∧
  dict_get (to_dict a include_icon) (lit "path") = VStr (path a) ∧
  dict_get (to_dict a include_icon) (lit "is_ai_app") = VBool (is_ai_app a) ∧
  dict_get (to_dict a include_icon) (lit "is_ai_host") = VBool (is_ai_host a) ∧
  dict_get (to_dict a include_icon) (lit "discovered_at")
    = VStr (discovered_at a) ∧
  dict_get (to_dict a include_icon) (lit "machine_id") = VStr (machine_id a).
Proof.
  rewrite !to_dict_unfold.
  match goal with
  | |- ?l `sublist_of` _ ∧ _ => assert (Hkeys : l `sublist_of` field_names)
  end.
  { etrans; [apply fmap_sublist, sublist_filter|].
    destruct include_icon; simpl.
    - reflexivity.
    - unfold field_names. simpl.
      do 9 apply sublist_skip. apply sublist_cons. reflexivity. }
  split; [done|]. split.
  - eapply sublist_NoDup; [|exact Hkeys].
    apply (bool_decide_unpack _). vm_compute. exact I.
  - repeat split;
      rewrite dict_get_filter_none by (by destruct include_icon);
      by destruct include_icon.
Qed.

(** ** The profile document *)

Lemma yaml_paths_and_executable_indented (signature : AppSignature) :
  Forall (λ line, startswith line (lit "    ") = true)
         (yaml_paths_and_executable signature).
Proof.
  unfold yaml_paths_and_executable. apply Forall_app. split.
  - destruct (nonempty (paths signature)); [|constructor].
    constructor; [reflexivity|]. apply Forall_map, Forall_true. reflexivity.
  - destruct (filled (executable_name signature)); repeat constructor.
Qed.

Lemma indented_not_vendor (line : str) :
  startswith line (lit "    ") = true →
  startswith line (lit "vendor: ") = false.
Proof. intros Hline. apply startswith_split in Hline as [rest ->]. reflexivity. Qed.

Section ProfileFacts.
Context {host : Host}.

(** X23: the profile document shows neither the inline icon nor the machine
    identifier: [to_yaml] gives the same text whatever these two fields
    hold. *)
Theorem to_yaml_hidden_fields (a : DiscoveredApp) (inline_icon : option str)
    (machine : str) :
  to_yaml (with_hidden_fields a inline_icon machine) = to_yaml a.
Proof. reflexivity. Qed.

Lemma yaml_lines_without_vendor (a : DiscoveredApp) :
  filled (vendor a) = false →
  Forall (λ line, startswith line (lit "vendor: ") = false) (yaml_lines a).
Proof.
  intros Hvendor. unfold yaml_lines. rewrite Hvendor.
  assert (Hblock : ∀ signature,
    Forall (λ line, startswith line (lit "vendor: ") = false)
           (yaml_paths_and_executable signature)).
  { intros signature. eapply Forall_impl;
      [apply yaml_paths_and_executable_indented | apply indented_not_vendor]. }
  repeat (apply Forall_app; split);
    repeat case_match;
    repeat first [ apply Forall_nil_2
                 | apply Hblock
                 | apply Forall_app; split
                 | apply Forall_cons; split; [reflexivity|] ].
Qed.

(** X24: [to_yaml] writes a [vendor:] line exactly when the vendor is set
    and non-empty: a vendor that is the empty string, which [to_dict] emits,
    is left out of the profile document. *)
Theorem to_yaml_vendor_line (a : DiscoveredApp) :
  Exists (λ line, startswith line (lit "vendor: ") = true) (yaml_lines a)
  ↔ filled (vendor a) = true.
Proof.
  split.
  - intros Hline. destruct (filled (vendor a)) eqn:Hvendor; [done|].
    apply Exists_exists in Hline as (line & Hin & Hline).
    pose proof (yaml_lines_without_vendor a Hvendor) as Hnone.
    rewrite (proj1 (Forall_forall _ _) Hnone line Hin) in Hline. done.
  - intros Hvendor. unfold yaml_lines. rewrite Hvendor.
    apply Exists_app. right. apply Exists_app. left.
    apply Exists_cons_hd. reflexivity.
Qed.

End ProfileFacts.

(** ** Running commands *)

(** X25: [run_command] turns a time-out and a missing program into [None]
    and never lets these two exceptions through; it returns an output only
    for exit status 0, and that output has no white space at either end. *)
Theorem run_command_result (run : M CompletedProcess) w :
  (∀ e w', run w = (Raise e, w') →
     e = TimeoutExpired ∨ e = FileNotFoundError →
     run_command run w = (Ok None, w')) ∧
  (∀ e w', run_command run w = (Raise e, w') →
     e ≠ TimeoutExpired ∧ e ≠ FileNotFoundError) ∧
  (∀ output w', run_command run w = (Ok (Some output), w') →
     stripped output ∧
     ∃ completed, run w = (Ok completed, w') ∧ returncode completed = 0%Z ∧
                  output = strip (stdout completed)).
Proof.
  unfold run_command. repeat split.
  - intros e w' Hrun [-> | ->]; by rewrite Hrun.
  - destruct (run w) as [[completed|[]] w1]; congruence.
  - destruct (run w) as [[completed|[]] w1]; congruence.
  - destruct (run w) as [[completed|[]] w1]; try done.
    destruct (returncode completed =? 0)%Z; [|done].
    injection H as <- _. apply strip_chars_head.
  - destruct (run w) as [[completed|[]] w1]; try done.
    destruct (returncode completed =? 0)%Z; [|done].
    injection H as <- _. apply strip_chars_last.
  - destruct (run w) as [[completed|[]] w1]; try done.
    destruct (returncode completed =? 0)%Z eqn:Hstatus; [|done].
    injection H as <- <-. exists completed. split; [done|].
    split; [by apply Z.eqb_eq | done].
Qed.

Lemma run_command_result_witness :
  run_command run_times_out mac_world = (Ok None, mac_world) ∧
  run_command (run_answers 0 (lit "  v1.2.3 ")) mac_world
  = (Ok (Some (lit "v1.2.3")), mac_world) ∧
  stripped (lit "v1.2.3").
Proof.
  split; [|split; [reflexivity|]].
  - apply (proj1 (run_command_result run_times_out mac_world)
             TimeoutExpired mac_world eq_refl). by left.
  - apply (proj2 (proj2 (run_command_result
             (run_answers 0 (lit "  v1.2.3 ")) mac_world)) _ mac_world).
    reflexivity.
Defined.

(** ** Categories *)

Section CategoryMoreFacts.
Context {host : Host}.

Lemma pick_category_known (n : str) is_ai is_host :
  MacOSDiscoverer.pick_category n is_ai is_host ∈ categories.
Proof.
  unfold MacOSDiscoverer.pick_category, categories.
  repeat case_match; simpl map;
    repeat first [apply list_elem_of_here | apply list_elem_of_further].
Qed.

(** X26: the category of every record the three discoverers build is one of
    [dev_tools], [chat], [productivity], [creative] and [other]. *)
Theorem record_category_known :
  (∀ self app_path w a w',
     MacOSDiscoverer._discover_app self app_path w = (Ok (Some a), w') →
     category a ∈ categories) ∧
  (∀ exe_path w a w',
     WindowsDiscoverer._discover_app exe_path w = (Ok (Some a), w') →
     category a ∈ categories) ∧
  (∀ file w a w',
     LinuxDiscoverer._parse_desktop_file file w = (Ok (Some a), w') →
     category a ∈ categories).
Proof.
  assert (Hother : lit "other" ∈ categories).
  { unfold categories. simpl map.
    repeat first [apply list_elem_of_here | apply list_elem_of_further]. }
  repeat split.
  - intros self app_path w a w' Hrun.
    apply macos_discover_app_inv in Hrun as (_ & _ & _ & _ & _ & _ & _ & _ & ->).
    apply pick_category_known.
  - intros exe_path w a w' Hrun.
    by apply windows_discover_app_inv in Hrun as [-> _].
  - intros file w a w' Hrun.
    by apply linux_parse_desktop_file_inv in Hrun as [-> _].
Qed.

End CategoryMoreFacts.

Lemma record_category_known_witness :
  ∃ a w',
    MacOSDiscoverer._discover_app (host := mac_host) without_icons
      (lit "/Applications/ChatGPT.app") mac_world = (Ok (Some a), w') ∧
    category a = lit "chat" ∧ category a ∈ categories.
Proof.
  assert (Hrun : ∃ a w',
    MacOSDiscoverer._discover_app (host := mac_host) without_icons
      (lit "/Applications/ChatGPT.app") mac_world = (Ok (Some a), w') ∧
    category a = lit "chat").
  { eexists _, _. split; vm_compute; reflexivity. }
  destruct Hrun as (a & w' & Hrun & Hcat). exists a, w'.
  split; [done|]. split; [done|].
  exact (proj1 (record_category_known (host := mac_host)) _ _ _ _ _ Hrun).
Defined.
